(** * flight.js: the ring-flight game, embedded and verified

    A shallow embedding of [static/flight.js].  JavaScript numbers are IEEE 754
    binary64 values, so coordinates, radii, speed and pitch are Rocq's primitive
    [float]s (the same format, round to nearest even), and every arithmetic
    expression of the script is kept as written.  The module-level variables of
    the script become the fields of one [Game] record that every function takes
    and returns; the browser is the environment that feeds events to
    [dispatch].

    Left out: the three.js scene graph, camera, light and renderer.  The script
    only writes to them; nothing it reads back from them reaches the game
    variables. *)

From Stdlib Require Import String ZArith List Bool Lia Floats.
Import ListNotations.

(* 0.7 and 0.2 are read as the nearest binary64 value, as JavaScript reads them. *)
Set Warnings "-inexact-float".

(** ** Data *)

(** [THREE.Vector3]; [Vector3.set a b c] is [position.set(a, b, c)]. *)
Module Vector3.
Record t : Set := set { x : float; y : float; z : float }.
End Vector3.

(** The arguments of [new THREE.TorusGeometry(radius, tube, 16, 100)]. *)
Record TorusGeometry : Set := mkTorus {
  radius : float;
  tube : float;
  radialSegments : nat;
  tubularSegments : nat
}.

(** A ring mesh together with the custom property [checked] the script puts on it. *)
Record Ring : Set := mkRing {
  geometry : TorusGeometry;
  position : Vector3.t;
  checked : bool
}.

(** [style.display] of an element: as the page's markup left it, or what the
    script assigned. *)
Inductive Display : Set := FromMarkup | DisplayNone | DisplayBlock.

(** The three elements the script writes to.  [scoreText = Some n] stands for
    the text [Score: n]; [None] for the text of the markup. *)
Record Document : Set := mkDocument {
  scoreText : option nat;
  crashMessage : Display;
  startMessage : Display
}.

(** Lines written with [console.log]. *)
Inductive LogEntry : Set :=
| LogGamepadConnected
| LogGamepadDisconnected
| LogRingPassed (i : nat) (score : nat)
| LogCrashed (i : nat).

(** What [navigator.getGamepads()] returns: an array with holes. *)
Record Gamepad : Set := mkGamepad { index : nat; axes : list float }.
Definition Gamepads : Set := list (option Gamepad).

Record KeyboardEvent : Set := mkKey { key : string; code : string }.

(** The module-level state of the script. *)
Record Game : Set := mkGame {
  plane : Vector3.t;              (* plane.position *)
  rings : list Ring;
  gameStarted : bool;
  crashed : bool;
  score : nat;
  pitch : float;
  gamepadIndex : option nat;      (* null or an index *)
  document : Document;
  console : list LogEntry;
  frameRequests : nat             (* callbacks pending after requestAnimationFrame *)
}.

(** ** Constants (lines 50-59 and 81) *)

Definition numRings : Z := 10.
Definition ringSpacing : float := 150.
Definition ringMajorRadius : float := 8.
Definition ringTubeRadius : float := 0.7.
Definition innerRadius : float := ringMajorRadius - ringTubeRadius.
Definition outerRadius : float := ringMajorRadius + ringTubeRadius.
Definition level1Altitude : float := 0.
Definition level2Altitude : float := 6.
Definition speed : float := 100 / 60.

(** ** Ring generation (lines 61-73)

    The body of the loop, over the loop counter [i] and the constants it
    reads.  The counter only takes the values 0, ..., 9, which are the same
    numbers as integers and as binary64 values. *)

Definition float_of_Z (i : Z) : float := PrimFloat.of_uint63 (Uint63.of_Z i).

Definition makeRing (spacing major tubeR : float) (i : Z) : Ring :=
  let altitude := if (i mod 2 =? 0)%Z then level1Altitude else level2Altitude in
  {| geometry := mkTorus major tubeR 16 100;
     position := Vector3.set 0 altitude (- float_of_Z i * spacing + 300);
     checked := false |}.

(** [for (let i = 0; i < numRings; i++) { ...; rings.push(ring); }], run once
    when the script is loaded: one ring for each of i = 0, ..., 9, in this
    order. *)
Definition initialRings : list Ring :=
  map (fun i => makeRing ringSpacing ringMajorRadius ringTubeRadius (Z.of_nat i))
      (seq 0 (Z.to_nat numRings)).

Definition initialPosition : Vector3.t := Vector3.set 0 0 500.

(** The state when the script has been loaded, over the page it was loaded in. *)
Definition initialGame (page : Document) : Game :=
  {| plane := initialPosition;
     rings := initialRings;
     gameStarted := false;
     crashed := false;
     score := 0;
     pitch := 0;
     gamepadIndex := None;
     document := page;
     console := [];
     frameRequests := 0 |}.

(** ** Field updates *)

Definition setChecked (b : bool) (r : Ring) : Ring :=
  {| geometry := geometry r; position := position r; checked := b |}.

Definition withPlane (p : Vector3.t) (g : Game) : Game :=
  mkGame p (rings g) (gameStarted g) (crashed g) (score g) (pitch g)
         (gamepadIndex g) (document g) (console g) (frameRequests g).
Definition withRings (rs : list Ring) (g : Game) : Game :=
  mkGame (plane g) rs (gameStarted g) (crashed g) (score g) (pitch g)
         (gamepadIndex g) (document g) (console g) (frameRequests g).
Definition withGameStarted (b : bool) (g : Game) : Game :=
  mkGame (plane g) (rings g) b (crashed g) (score g) (pitch g)
         (gamepadIndex g) (document g) (console g) (frameRequests g).
Definition withCrashed (b : bool) (g : Game) : Game :=
  mkGame (plane g) (rings g) (gameStarted g) b (score g) (pitch g)
         (gamepadIndex g) (document g) (console g) (frameRequests g).
Definition withScore (n : nat) (g : Game) : Game :=
  mkGame (plane g) (rings g) (gameStarted g) (crashed g) n (pitch g)
         (gamepadIndex g) (document g) (console g) (frameRequests g).
Definition withPitch (v : float) (g : Game) : Game :=
  mkGame (plane g) (rings g) (gameStarted g) (crashed g) (score g) v
         (gamepadIndex g) (document g) (console g) (frameRequests g).
Definition withGamepadIndex (i : option nat) (g : Game) : Game :=
  mkGame (plane g) (rings g) (gameStarted g) (crashed g) (score g) (pitch g)
         i (document g) (console g) (frameRequests g).
Definition withDocument (d : Document) (g : Game) : Game :=
  mkGame (plane g) (rings g) (gameStarted g) (crashed g) (score g) (pitch g)
         (gamepadIndex g) d (console g) (frameRequests g).
Definition withFrameRequests (n : nat) (g : Game) : Game :=
  mkGame (plane g) (rings g) (gameStarted g) (crashed g) (score g) (pitch g)
         (gamepadIndex g) (document g) (console g) n.

(** [console.log(...)] *)
Definition log (l : LogEntry) (g : Game) : Game :=
  mkGame (plane g) (rings g) (gameStarted g) (crashed g) (score g) (pitch g)
         (gamepadIndex g) (document g) (console g ++ [l]) (frameRequests g).

(** [document.getElementById("score").innerText = `Score: ${score}`] *)
Definition showScore (g : Game) : Game :=
  withDocument (mkDocument (Some (score g)) (crashMessage (document g))
                           (startMessage (document g))) g.
(** [document.getElementById("crash-message").style.display = d] *)
Definition setCrashMessage (d : Display) (g : Game) : Game :=
  withDocument (mkDocument (scoreText (document g)) d (startMessage (document g))) g.
(** [document.getElementById("start-message").style.display = d] *)
Definition setStartMessage (d : Display) (g : Game) : Game :=
  withDocument (mkDocument (scoreText (document g)) (crashMessage (document g)) d) g.

(** ** updateGamepadInput (lines 99-105) *)

(** [gamepad.axes[3] * 0.2]; a missing entry is [undefined], and
    [undefined * 0.2] is NaN. *)
Definition rightStickY (gamepad : Gamepad) : float :=
  match nth_error (axes gamepad) 3 with
  | Some a => a * 0.2
  | None => nan
  end.

Definition updateGamepadInput (pads : Gamepads) (g : Game) : Game :=
  match gamepadIndex g with
  | None => g
  | Some idx =>
    if crashed g then g
    else match nth_error pads idx with
         | Some (Some gamepad) => withPitch (rightStickY gamepad) g
         | _ => g                                   (* if (!gamepad) return *)
         end
  end.

(** ** checkRings (lines 123-149) *)

(** The three branches of the test on [distance]: the [if], the [else if] and
    the fall-through that the script's comment calls a miss. *)
Inductive Outcome : Set := Scored | Crashed | Missed.

Definition judge (distance : float) : Outcome :=
  if (distance <? innerRadius)%float then Scored
  else if ((innerRadius <=? distance) && (distance <=? outerRadius))%float then Crashed
  else Missed.

(** [Math.sqrt(dx * dx + dy * dy)] for the plane at [p]. *)
Definition distance (p : Vector3.t) (ring : Ring) : float :=
  let dx := (Vector3.x p - Vector3.x (position ring))%float in
  let dy := (Vector3.y p - Vector3.y (position ring))%float in
  sqrt (dx * dx + dy * dy).

(** [!ring.checked && plane.position.z < ring.position.z] *)
Definition passed (p : Vector3.t) (ring : Ring) : bool :=
  negb (checked ring) && (Vector3.z p <? Vector3.z (position ring))%float.

(** The loop from index [i] on, over the rings [rings[i], rings[i+1], ...] that
    are left; it gives back those rings as the loop leaves them, and the game
    variables it wrote.  The [Crashed] branch is the early [return]. *)
Fixpoint checkRingsFrom (i : nat) (todo : list Ring) (g : Game) : list Ring * Game :=
  match todo with
  | [] => ([], g)
  | ring :: rest =>
    if passed (plane g) ring then
      let ring' := setChecked true ring in
      match judge (distance (plane g) ring) with
      | Scored =>
        let g := withScore (score g + 1) g in
        let g := showScore g in
        let g := log (LogRingPassed i (score g)) g in
        let (rest', g') := checkRingsFrom (S i) rest g in
        (ring' :: rest', g')
      | Crashed =>
        let g := withCrashed true g in
        let g := setCrashMessage DisplayBlock g in
        let g := log (LogCrashed i) g in
        (ring' :: rest, g)
      | Missed =>
        let (rest', g') := checkRingsFrom (S i) rest g in
        (ring' :: rest', g')
      end
    else
      let (rest', g') := checkRingsFrom (S i) rest g in
      (ring :: rest', g')
  end.

Definition checkRings (g : Game) : Game :=
  let (rs, g') := checkRingsFrom 0 (rings g) g in
  withRings rs g'.

(** ** animate (lines 154-167) *)

Definition requestAnimationFrame (g : Game) : Game :=
  withFrameRequests (S (frameRequests g)) g.

(** [plane.position.z -= speed; plane.position.y -= pitch] *)
Definition movePlane (g : Game) : Game :=
  let p := plane g in
  withPlane (Vector3.set (Vector3.x p) (Vector3.y p - pitch g) (Vector3.z p - speed)) g.

Definition animate (pads : Gamepads) (g : Game) : Game :=
  if negb (gameStarted g) || crashed g then g
  else
    let g := requestAnimationFrame g in
    let g := updateGamepadInput pads g in
    let g := movePlane g in
    checkRings g.

(** ** startGame and restartGame (lines 172-193) *)

Definition startGame (pads : Gamepads) (g : Game) : Game :=
  if negb (gameStarted g) then
    let g := withGameStarted true g in
    let g := setStartMessage DisplayNone g in
    animate pads g
  else g.

Definition restartGame (g : Game) : Game :=
  let g := withPlane (Vector3.set 0 0 500) g in
  let g := withCrashed false g in
  let g := withGameStarted false g in
  let g := withScore 0 g in
  let g := showScore g in
  let g := withRings (map (setChecked false) (rings g)) g in
  let g := setCrashMessage DisplayNone g in
  setStartMessage DisplayBlock g.

(** ** The event listeners (lines 85-94 and 198-206) and the frame callback *)

Inductive Event : Set :=
| AnimationFrame (pads : Gamepads)
| KeyDown (event : KeyboardEvent) (pads : Gamepads)
| GamepadConnected (gamepad : Gamepad) (pads : Gamepads)
| GamepadDisconnected.

Definition isSpace (event : KeyboardEvent) : bool :=
  String.eqb (key event) " " || String.eqb (code event) "Space".

(** Each event carries the gamepads the browser would report while it is
    handled.  A frame fires only when a callback is pending, and uses it up. *)
Definition dispatch (e : Event) (g : Game) : Game :=
  match e with
  | AnimationFrame pads =>
    match frameRequests g with
    | 0 => g
    | S n => animate pads (withFrameRequests n g)
    end
  | KeyDown event pads =>
    if isSpace event then restartGame g
    else if negb (gameStarted g) && negb (crashed g) then startGame pads g
    else g
  | GamepadConnected gamepad pads =>
    let g := log LogGamepadConnected g in
    let g := withGamepadIndex (Some (index gamepad)) g in
    if negb (gameStarted g) && negb (crashed g) then startGame pads g else g
  | GamepadDisconnected =>
    let g := log LogGamepadDisconnected g in
    withGamepadIndex None g
  end.

Definition run (es : list Event) (g : Game) : Game :=
  fold_left (fun g e => dispatch e g) es g.

(** The states the page can be in: those some sequence of events leads to. *)
Inductive reachable (page : Document) : Game -> Prop :=
| reachable_init : reachable page (initialGame page)
| reachable_step e g : reachable page g -> reachable page (dispatch e g).

(** The lifecycle state the two flags stand for. *)
Inductive State : Set := Idle | Running | GameOver.

Definition stateOf (g : Game) : State :=
  if crashed g then GameOver else if gameStarted g then Running else Idle.

(** ** Reading binary64 comparisons

    The comparison of two values that are not NaN is the lexicographic order of
    the triples below: the sign class, then the exponent, then the mantissa. *)

Definition SFkey (f : spec_float) : option (Z * Z * Z) :=
  match f with
  | S754_nan => None
  | S754_infinity true => Some (-2, 0, 0)%Z
  | S754_finite true m e => Some (-1, - e, Zneg m)%Z
  | S754_zero _ => Some (0, 0, 0)%Z
  | S754_finite false m e => Some (1, e, Zpos m)%Z
  | S754_infinity false => Some (2, 0, 0)%Z
  end.

Definition key_lt (a b : Z * Z * Z) : Prop :=
  let '(a1, a2, a3) := a in
  let '(b1, b2, b3) := b in
  (a1 < b1 \/ (a1 = b1 /\ (a2 < b2 \/ (a2 = b2 /\ a3 < b3))))%Z.

Definition key_cmp (c : comparison) (a b : Z * Z * Z) : Prop :=
  match c with
  | Lt => key_lt a b
  | Eq => a = b
  | Gt => key_lt b a
  end.

Definition fkey (x : float) : option (Z * Z * Z) := SFkey (Prim2SF x).

(** [x] is a number, that is, not NaN: the test [x === x] of JavaScript. *)
Definition isNumber (x : float) : bool := (x =? x)%float.

(** ** Vocabulary of the statements *)

(** The space bar: the one event that calls [restartGame]. *)
Definition isRestart (e : Event) : bool :=
  match e with
  | KeyDown event _ => isSpace event
  | _ => false
  end.

(** What one full scan does to a ring when nothing stops the scan. *)
Definition mark (p : Vector3.t) (r : Ring) : Ring :=
  if passed p r then setChecked true r else r.

Definition isScored (o : Outcome) : bool :=
  match o with Scored => true | _ => false end.
Definition isCrashed (o : Outcome) : bool :=
  match o with Crashed => true | _ => false end.

Definition crashes (p : Vector3.t) (r : Ring) : bool :=
  passed p r && isCrashed (judge (distance p r)).

(** Index of the first ring the plane at [p] crashes into. *)
Fixpoint firstCrash (p : Vector3.t) (rs : list Ring) : option nat :=
  match rs with
  | [] => None
  | r :: rest => if crashes p r then Some 0 else option_map S (firstCrash p rest)
  end.

(** The rings a scan reaches: all of them, or those up to the first crash. *)
Definition reached (p : Vector3.t) (rs : list Ring) : list Ring :=
  match firstCrash p rs with
  | None => rs
  | Some k => firstn (S k) rs
  end.
Definition unreached (p : Vector3.t) (rs : list Ring) : list Ring :=
  match firstCrash p rs with
  | None => []
  | Some k => skipn (S k) rs
  end.

(** Rings whose flag went from false to true between [rs] and [rs'] and that
    the plane at [p] passes through the hole of. *)
Definition newlyScored (p : Vector3.t) (rs rs' : list Ring) : nat :=
  length (filter (fun rr => negb (checked (fst rr)) && checked (snd rr)
                            && isScored (judge (distance p (fst rr))))
                 (combine rs rs')).

(** The ring index a console line speaks of. *)
Definition entryIndex (l : LogEntry) : option nat :=
  match l with
  | LogRingPassed i _ => Some i
  | LogCrashed i => Some i
  | _ => None
  end.

(** The lines [l] speak of rings [lo <= i < hi], in increasing order of [i]. *)
Fixpoint ascending (lo hi : nat) (l : list LogEntry) : Prop :=
  match l with
  | [] => True
  | e :: rest =>
    match entryIndex e with
    | Some i => lo <= i < hi /\ ascending (S i) hi rest
    | None => False
    end
  end.

(** The flag of ring [i]; false when there is no such ring. *)
Definition checkedAt (i : nat) (g : Game) : bool :=
  match nth_error (rings g) i with
  | Some r => checked r
  | None => false
  end.

(** The states a sequence of events goes through, the first one included. *)
Fixpoint states (es : list Event) (g : Game) : list Game :=
  g :: match es with
       | [] => []
       | e :: rest => states rest (dispatch e g)
       end.

(** How often a flag goes from false to true, and from true to false. *)
Fixpoint rises (l : list bool) : nat :=
  match l with
  | a :: (b :: _) as rest => (if negb a && b then 1 else 0) + rises rest
  | _ => 0
  end.
Fixpoint falls (l : list bool) : nat :=
  match l with
  | a :: (b :: _) as rest => (if a && negb b then 1 else 0) + falls rest
  | _ => 0
  end.

(** A flag that never goes back from true to false. *)
Fixpoint nondecreasing (l : list bool) : Prop :=
  match l with
  | a :: (b :: _) as rest => (a = true -> b = true) /\ nondecreasing rest
  | _ => True
  end.

(** A ring later in the game: the same mesh, and still checked if it was. *)
Definition advance (r r' : Ring) : Prop :=
  geometry r' = geometry r /\ position r' = position r /\
  (checked r = true -> checked r' = true).

(** The plane as [animate] has moved it when it calls [checkRings]. *)
Definition beforeCheck (pads : Gamepads) (g : Game) : Game :=
  movePlane (updateGamepadInput pads (requestAnimationFrame g)).

(** What the handlers do around a call of [animate]: they may set
    [gameStarted], and write the gamepad index, the document, the console and
    the count of pending frames; the fields below they leave alone. *)
Definition quiet (g g1 : Game) : Prop :=
  plane g1 = plane g /\ rings g1 = rings g /\ crashed g1 = crashed g /\
  score g1 = score g /\ pitch g1 = pitch g /\
  (gameStarted g = true -> gameStarted g1 = true).

(** The same mesh: geometry and position. *)
Definition sameMesh (r r' : Ring) : Prop :=
  geometry r' = geometry r /\ position r' = position r.

(** What holds in every state the page can reach. *)
Definition invariant (g : Game) : Prop :=
  (crashed g = true -> gameStarted g = true) /\
  Vector3.x (plane g) = 0%float /\
  Forall2 sameMesh initialRings (rings g).

(** While the game is not crashed, no unchecked ring is behind the plane. *)
Definition noneBehind (g : Game) : Prop :=
  crashed g = false ->
  forall r, In r (rings g) ->
  (Vector3.z (plane g) <? Vector3.z (position r))%float = true ->
  checked r = true.

(** ** Sample plays, for the worked examples *)

Definition samplePage : Document := mkDocument None FromMarkup DisplayBlock.

(** A gamepad in slot 0 whose right stick reads [a] on its vertical axis. *)
Definition padWith (a : float) : Gamepad := mkGamepad 0 [0; 0; 0; a]%float.
Definition reporting (a : float) : Gamepads := [Some (padWith a)].

Definition anyKey : KeyboardEvent := mkKey "Enter" "Enter".
Definition spaceBar : KeyboardEvent := mkKey " " "Space".

(** A key press starts the game and the plane flies level: the tick of the key
    press and [n] frames. *)
Definition levelFlight (n : nat) : list Event :=
  KeyDown anyKey [] :: repeat (AnimationFrame []) n.

(** Stick fully forward for 40 ticks (the plane sinks to y = -8), then
    released: the plane meets the rim of ring 0 on tick 120. *)
Definition diveIntoRim : list Event :=
  GamepadConnected (padWith 1) (reporting 1)
  :: repeat (AnimationFrame (reporting 1)) 39
  ++ repeat (AnimationFrame (reporting 0)) 80.

(** A running game whose plane is already behind rings 0 and 1 (at z = 300 and
    z = 150), level with ring 0 or 8 below its centre. *)
Definition behindTwoRings (height : float) : Game :=
  withPlane (Vector3.set 0 height 100) (withGameStarted true (initialGame samplePage)).

(** The gamepad is plugged in with the stick fully forward, and unplugged. *)
Definition plugAndUnplug : list Event :=
  [GamepadConnected (padWith 1) (reporting 1); GamepadDisconnected].

(** A stick reading so small that the square of the height it leads to is
    below the least positive binary64 value. *)
Definition faintDrift : list Event :=
  GamepadConnected (padWith 5e-200) (reporting 5e-200)
  :: repeat (AnimationFrame (reporting 0)) 119.

(** A well-formed ring: a tube of positive radius, thinner than the ring. *)
Definition validRing (r : Ring) : bool :=
  ((0 <? tube (geometry r)) && (tube (geometry r) <? radius (geometry r)))%float.

(** No gamepad was ever plugged in. *)
Definition noGamepad (e : Event) : bool :=
  match e with
  | GamepadConnected _ _ => false
  | _ => true
  end.

(** ** Vocabulary of the further properties *)

(** The events that call [startGame] when the game is idle: a key other than
    the space bar, and a gamepad being plugged in. *)
Definition isStart (e : Event) : bool :=
  match e with
  | KeyDown event _ => negb (isSpace event)
  | GamepadConnected _ _ => true
  | _ => false
  end.

(** The gamepads the browser reports while [e] is handled, if [e] carries any. *)
Definition gamepadsOf (e : Event) : Gamepads :=
  match e with
  | AnimationFrame pads | KeyDown _ pads | GamepadConnected _ pads => pads
  | GamepadDisconnected => []
  end.

(** How many rings have their flag set. *)
Definition checkedCount (rs : list Ring) : nat := length (filter checked rs).

(** A field nobody has flown through yet. *)
Definition fresh (g : Game) : Prop :=
  plane g = initialPosition /\ score g = 0 /\
  Forall (fun r => checked r = false) (rings g).

(** A gamepad in slot 0 with two axes only: it has no right stick. *)
Definition twoAxisPad : Gamepad := mkGamepad 0 [0; 0]%float.

(** What the three elements of the page show, against the game variables:
    the score text is the score, or still the markup's while the score is 0;
    the crash message is shown when crashed, and otherwise hidden or as the
    markup left it; the start message is hidden when started, and otherwise
    shown or as the markup left it. *)
Definition display (page : Document) (g : Game) : Prop :=
  (scoreText (document g) = Some (score g) \/
   (score g = 0 /\ scoreText (document g) = scoreText page)) /\
  (crashed g = true -> crashMessage (document g) = DisplayBlock) /\
  (crashed g = false ->
   crashMessage (document g) = DisplayNone \/
   crashMessage (document g) = crashMessage page) /\
  (gameStarted g = true -> startMessage (document g) = DisplayNone) /\
  (gameStarted g = false ->
   startMessage (document g) = DisplayBlock \/
   startMessage (document g) = startMessage page).

(** The gamepad index after an event, given the one before: only plugging in
    and unplugging write it. *)
Definition trackGamepad (cur : option nat) (e : Event) : option nat :=
  match e with
  | GamepadConnected gamepad _ => Some (index gamepad)
  | GamepadDisconnected => None
  | _ => cur
  end.

(* ================================================================== *)
(** * Theorems *)

(** ** Binary64 comparison *)

Lemma SFcompare_key (a b : spec_float) :
  match SFcompare a b with
  | Some c => exists ka kb, SFkey a = Some ka /\ SFkey b = Some kb /\ key_cmp c ka kb
  | None => SFkey a = None \/ SFkey b = None
  end.
Proof.
  destruct a as [sa|sa| |sa ma ea], b as [sb|sb| |sb mb eb]; cbn [SFcompare SFkey];
    try (now left); try (now right);
    try (destruct sa); try (destruct sb); cbn [SFkey];
    try (do 2 eexists; split; [reflexivity|split; [reflexivity|cbn; try reflexivity; lia]]).
  - do 2 eexists; split; [reflexivity|split; [reflexivity|]].
    destruct (Z.compare_spec ea eb) as [E|E|E].
    + subst eb. change (Pos.compare_cont Eq ma mb) with (Pos.compare ma mb).
      destruct (Pos.compare_spec ma mb) as [M|M|M]; cbn; [subst; reflexivity|lia|lia].
    + cbn; lia.
    + cbn; lia.
  - do 2 eexists; split; [reflexivity|split; [reflexivity|]].
    destruct (Z.compare_spec ea eb) as [E|E|E].
    + subst eb. change (Pos.compare_cont Eq ma mb) with (Pos.compare ma mb).
      destruct (Pos.compare_spec ma mb) as [M|M|M]; cbn; [subst; reflexivity|lia|lia].
    + cbn; lia.
    + cbn; lia.
Qed.
Lemma key_lt_irrefl (a : Z * Z * Z) : ~ key_lt a a.
Proof. destruct a as [[a1 a2] a3]; cbn; lia. Qed.

Lemma key_lt_trans (a b c : Z * Z * Z) : key_lt a b -> key_lt b c -> key_lt a c.
Proof.
  destruct a as [[a1 a2] a3], b as [[b1 b2] b3], c as [[c1 c2] c3]; cbn; lia.
Qed.

Lemma key_lt_total (a b : Z * Z * Z) : key_lt a b \/ a = b \/ key_lt b a.
Proof.
  destruct a as [[a1 a2] a3], b as [[b1 b2] b3]; cbn.
  destruct (Z.lt_total a1 b1) as [H|[H|H]]; [lia| |lia].
  destruct (Z.lt_total a2 b2) as [H2|[H2|H2]]; [lia| |lia].
  destruct (Z.lt_total a3 b3) as [H3|[H3|H3]]; [lia| |lia].
  right; left; congruence.
Qed.

Lemma ltb_key (x y : float) :
  (x <? y)%float = true <->
  exists kx ky, fkey x = Some kx /\ fkey y = Some ky /\ key_lt kx ky.
Proof.
  rewrite ltb_spec. unfold SFltb, fkey.
  pose proof (SFcompare_key (Prim2SF x) (Prim2SF y)) as H.
  destruct (SFcompare (Prim2SF x) (Prim2SF y)) as [[]|].
  - destruct H as (kx & ky & Hx & Hy & Hc); cbn in Hc; subst ky. split; [discriminate|].
    intros (kx' & ky' & Hx' & Hy' & Hlt). rewrite Hx in Hx'. rewrite Hy in Hy'.
    injection Hx' as <-. injection Hy' as <-. now apply key_lt_irrefl in Hlt.
  - split; [intros _; exact H | reflexivity].
  - destruct H as (kx & ky & Hx & Hy & Hc); cbn in Hc. split; [discriminate|].
    intros (kx' & ky' & Hx' & Hy' & Hlt). rewrite Hx in Hx'. rewrite Hy in Hy'.
    injection Hx' as <-. injection Hy' as <-.
    exfalso. apply (key_lt_irrefl _ (key_lt_trans _ _ _ Hlt Hc)).
  - split; [discriminate|].
    intros (kx' & ky' & Hx' & Hy' & _). destruct H as [H|H]; congruence.
Qed.

Lemma leb_key (x y : float) :
  (x <=? y)%float = true <->
  exists kx ky, fkey x = Some kx /\ fkey y = Some ky /\ (key_lt kx ky \/ kx = ky).
Proof.
  rewrite leb_spec. unfold SFleb, fkey.
  pose proof (SFcompare_key (Prim2SF x) (Prim2SF y)) as H.
  destruct (SFcompare (Prim2SF x) (Prim2SF y)) as [[]|].
  - destruct H as (kx & ky & Hx & Hy & Hc); cbn in Hc.
    split; [intros _; exists kx, ky; auto | reflexivity].
  - destruct H as (kx & ky & Hx & Hy & Hc); cbn in Hc.
    split; [intros _; exists kx, ky; auto | reflexivity].
  - destruct H as (kx & ky & Hx & Hy & Hc); cbn in Hc. split; [discriminate|].
    intros (kx' & ky' & Hx' & Hy' & Hle). rewrite Hx in Hx'. rewrite Hy in Hy'.
    injection Hx' as <-. injection Hy' as <-.
    exfalso. destruct Hle as [Hlt | ->].
    + apply (key_lt_irrefl _ (key_lt_trans _ _ _ Hlt Hc)).
    + now apply key_lt_irrefl in Hc.
  - split; [discriminate|].
    intros (kx' & ky' & Hx' & Hy' & _). destruct H as [H|H]; congruence.
Qed.

Lemma isNumber_key (x : float) : isNumber x = true <-> exists k, fkey x = Some k.
Proof.
  unfold isNumber. rewrite eqb_spec. unfold SFeqb, fkey.
  pose proof (SFcompare_key (Prim2SF x) (Prim2SF x)) as H.
  destruct (SFcompare (Prim2SF x) (Prim2SF x)) as [[]|].
  - destruct H as (kx & ky & Hx & Hy & Hc). split; [intros _; eauto | reflexivity].
  - destruct H as (kx & ky & Hx & Hy & Hc); cbn in Hc. rewrite Hx in Hy.
    injection Hy as <-. now apply key_lt_irrefl in Hc.
  - destruct H as (kx & ky & Hx & Hy & Hc); cbn in Hc. rewrite Hx in Hy.
    injection Hy as <-. now apply key_lt_irrefl in Hc.
  - split; [discriminate|]. intros [k Hk]. destruct H; congruence.
Qed.

Lemma eqb_key (x y : float) :
  (x =? y)%float = true <-> exists k, fkey x = Some k /\ fkey y = Some k.
Proof.
  rewrite eqb_spec. unfold SFeqb, fkey.
  pose proof (SFcompare_key (Prim2SF x) (Prim2SF y)) as H.
  destruct (SFcompare (Prim2SF x) (Prim2SF y)) as [[]|].
  - destruct H as (kx & ky & Hx & Hy & Hc); cbn in Hc; subst ky.
    split; [intros _; eauto | reflexivity].
  - destruct H as (kx & ky & Hx & Hy & Hc); cbn in Hc. split; [discriminate|].
    intros (k & Hx' & Hy'). rewrite Hx in Hx'. rewrite Hy in Hy'.
    injection Hx' as <-. injection Hy' as <-. now apply key_lt_irrefl in Hc.
  - destruct H as (kx & ky & Hx & Hy & Hc); cbn in Hc. split; [discriminate|].
    intros (k & Hx' & Hy'). rewrite Hx in Hx'. rewrite Hy in Hy'.
    injection Hx' as <-. injection Hy' as <-. now apply key_lt_irrefl in Hc.
  - split; [discriminate|]. intros (k & Hx' & Hy'). destruct H; congruence.
Qed.

Ltac same_key :=
  repeat match goal with
  | H1 : fkey ?x = Some ?a, H2 : fkey ?x = Some ?b |- _ =>
    rewrite H1 in H2; injection H2 as <-
  end.

Lemma ltb_leb_false (x y : float) : (x <? y)%float = true -> (y <=? x)%float = false.
Proof.
  intros H. destruct (y <=? x)%float eqn:E; [|reflexivity].
  apply ltb_key in H. apply leb_key in E.
  destruct H as (kx & ky & Hx & Hy & Hlt), E as (ky' & kx' & Hy' & Hx' & Hle).
  same_key. exfalso. destruct Hle as [Hlt' | ->].
  - apply (key_lt_irrefl _ (key_lt_trans _ _ _ Hlt Hlt')).
  - now apply key_lt_irrefl in Hlt.
Qed.

Lemma leb_ltb_false (x y : float) : (x <=? y)%float = true -> (y <? x)%float = false.
Proof.
  intros H. destruct (y <? x)%float eqn:E; [|reflexivity].
  apply ltb_leb_false in E. congruence.
Qed.

Lemma ltb_leb (x y : float) : (x <? y)%float = true -> (x <=? y)%float = true.
Proof.
  intros H. apply ltb_key in H. apply leb_key.
  destruct H as (kx & ky & Hx & Hy & Hlt). exists kx, ky. auto.
Qed.

Lemma leb_ltb_trans (x y z : float) :
  (x <=? y)%float = true -> (y <? z)%float = true -> (x <? z)%float = true.
Proof.
  intros H1 H2. apply leb_key in H1. apply ltb_key in H2. apply ltb_key.
  destruct H1 as (kx & ky & Hx & Hy & Hle), H2 as (ky' & kz & Hy' & Hz & Hlt).
  same_key. exists kx, kz. repeat split; trivial.
  destruct Hle as [Hlt' | ->]; [exact (key_lt_trans _ _ _ Hlt' Hlt) | exact Hlt].
Qed.

Lemma ltb_trans (x y z : float) :
  (x <? y)%float = true -> (y <? z)%float = true -> (x <? z)%float = true.
Proof. intros H1 H2. apply (leb_ltb_trans x y z); [now apply ltb_leb | exact H2]. Qed.

Lemma eqb_leb (x y : float) :
  (x =? y)%float = true -> (x <=? y)%float = true /\ (y <=? x)%float = true.
Proof.
  intros H. apply eqb_key in H. destruct H as (k & Hx & Hy).
  split; apply leb_key; exists k, k; auto.
Qed.

Lemma leb_trans (x y z : float) :
  (x <=? y)%float = true -> (y <=? z)%float = true -> (x <=? z)%float = true.
Proof.
  intros H1 H2. apply leb_key in H1. apply leb_key in H2. apply leb_key.
  destruct H1 as (kx & ky & Hx & Hy & Hle), H2 as (ky' & kz & Hy' & Hz & Hle').
  same_key. exists kx, kz. repeat split; trivial.
  destruct Hle as [Hlt | ->]; [|exact Hle'].
  destruct Hle' as [Hlt' | <-]; [left; exact (key_lt_trans _ _ _ Hlt Hlt') | now left].
Qed.

Lemma number_total (x y : float) :
  isNumber x = true -> isNumber y = true ->
  (x <? y)%float = true \/ (y <=? x)%float = true.
Proof.
  intros Hx Hy. apply isNumber_key in Hx. apply isNumber_key in Hy.
  destruct Hx as [kx Hx], Hy as [ky Hy].
  destruct (key_lt_total kx ky) as [H | [H | H]].
  - left. apply ltb_key. exists kx, ky. auto.
  - right. apply leb_key. exists ky, kx. auto.
  - right. apply leb_key. exists ky, kx. auto.
Qed.

Lemma ltb_isNumber (x y : float) :
  (x <? y)%float = true -> isNumber x = true /\ isNumber y = true.
Proof.
  intros H. apply ltb_key in H. destruct H as (kx & ky & Hx & Hy & _).
  split; apply isNumber_key; eauto.
Qed.

Lemma leb_isNumber (x y : float) :
  (x <=? y)%float = true -> isNumber x = true /\ isNumber y = true.
Proof.
  intros H. apply leb_key in H. destruct H as (kx & ky & Hx & Hy & _).
  split; apply isNumber_key; eauto.
Qed.

(** ** The thresholds *)

Lemma inner_lt_outer : (innerRadius <? outerRadius)%float = true.
Proof. reflexivity. Qed.

Lemma judge_scored_iff (d : float) :
  judge d = Scored <-> (d <? innerRadius)%float = true.
Proof.
  unfold judge. destruct (d <? innerRadius)%float; [tauto|].
  destruct ((innerRadius <=? d)%float && (d <=? outerRadius)%float);
    split; discriminate.
Qed.

Lemma judge_crashed_iff (d : float) :
  judge d = Crashed <->
  (innerRadius <=? d)%float = true /\ (d <=? outerRadius)%float = true.
Proof.
  unfold judge. destruct (d <? innerRadius)%float eqn:E.
  - apply ltb_leb_false in E. rewrite E. split; [discriminate | intros [H _]; discriminate].
  - rewrite <- andb_true_iff.
    destruct ((innerRadius <=? d)%float && (d <=? outerRadius)%float);
      split; congruence.
Qed.

Lemma judge_missed_above (d : float) :
  (outerRadius <? d)%float = true -> judge d = Missed.
Proof.
  intros H. unfold judge.
  rewrite (ltb_leb_false _ _ H), andb_false_r.
  assert (E : (innerRadius <? d)%float = true)
    by exact (ltb_trans innerRadius outerRadius d inner_lt_outer H).
  apply ltb_leb in E. apply leb_ltb_false in E. now rewrite E.
Qed.

(** A distance that is not a number falls through both tests. *)
Lemma judge_nan (d : float) : isNumber d = false -> judge d = Missed.
Proof.
  intros H. unfold judge.
  destruct (d <? innerRadius)%float eqn:E1.
  { apply ltb_isNumber in E1. destruct E1; congruence. }
  destruct (innerRadius <=? d)%float eqn:E2; [|reflexivity].
  apply leb_isNumber in E2. destruct E2; congruence.
Qed.

(** C1. For every plane position and every ring, with [d] the planar distance
    [sqrt(dx*dx + dy*dy)] that [checkRings] computes: the branch taken is
    [Scored] when [d < innerRadius], [Crashed] when
    [innerRadius <= d <= outerRadius] and [Missed] when [d > outerRadius]; a
    distance equal to either radius is a crash, and [Scored] is taken only
    under the strict inequality.  The three conditions exclude one another,
    and a distance that is a number meets one of them. *)
Theorem judge_three_bands (p : Vector3.t) (ring : Ring) :
  let d := distance p ring in
  let inside := (d <? innerRadius)%float in
  let onRim := ((innerRadius <=? d) && (d <=? outerRadius))%float in
  let outside := (outerRadius <? d)%float in
  (inside = true -> judge d = Scored) /\
  (onRim = true -> judge d = Crashed) /\
  (outside = true -> judge d = Missed) /\
  ((d =? innerRadius)%float = true \/ (d =? outerRadius)%float = true ->
   judge d = Crashed) /\
  (judge d = Scored -> inside = true) /\
  (judge d = Crashed -> onRim = true) /\
  inside && onRim = false /\ inside && outside = false /\ onRim && outside = false /\
  (isNumber d = true -> inside || onRim || outside = true).
Proof.
  intros d inside onRim outside. subst inside onRim outside.
  generalize d; clear d p ring; intros d.
  assert (Hrim : ((innerRadius <=? d)%float && (d <=? outerRadius)%float = true ->
                  judge d = Crashed)).
  { rewrite andb_true_iff. apply judge_crashed_iff. }
  repeat split.
  - apply judge_scored_iff.
  - exact Hrim.
  - apply judge_missed_above.
  - intros [H | H]; apply judge_crashed_iff.
    + destruct (eqb_leb _ _ H) as [H1 H2]. split; [exact H2|].
      exact (leb_trans d innerRadius outerRadius H1 (ltb_leb innerRadius outerRadius inner_lt_outer)).
    + destruct (eqb_leb _ _ H) as [H1 H2]. split; [|exact H1].
      exact (leb_trans innerRadius outerRadius d (ltb_leb innerRadius outerRadius inner_lt_outer) H2).
  - apply judge_scored_iff.
  - intros H. apply judge_crashed_iff in H. now apply andb_true_iff.
  - destruct (d <? innerRadius)%float eqn:E; [|reflexivity].
    now rewrite (ltb_leb_false _ _ E).
  - destruct (d <? innerRadius)%float eqn:E; [|reflexivity].
    destruct (outerRadius <? d)%float eqn:E'; [|reflexivity].
    pose proof (ltb_trans _ _ _ E' E) as H.
    pose proof (ltb_leb_false innerRadius outerRadius inner_lt_outer) as H'.
    apply ltb_leb in H. congruence.
  - destruct (outerRadius <? d)%float eqn:E; [|apply andb_false_r].
    now rewrite (ltb_leb_false _ _ E), andb_false_r.
  - intros Hd.
    assert (Hi : isNumber innerRadius = true) by reflexivity.
    assert (Ho : isNumber outerRadius = true) by reflexivity.
    destruct (number_total d innerRadius Hd Hi) as [H | H]; [now rewrite H|].
    rewrite H. destruct (number_total outerRadius d Ho Hd) as [H' | H'].
    + rewrite H'. now rewrite !orb_true_r.
    + rewrite H'. now rewrite orb_true_r.
Qed.

(** ** The lateral term of the distance *)

Lemma SFadd_zero_square (s : spec_float) :
  SF64add (S754_zero false) (SF64mul s s) = SF64mul s s.
Proof.
  destruct s as [b | b | | b m e]; cbn [SF64mul SFmul].
  - now destruct b.
  - now destruct b.
  - reflexivity.
  - replace (xorb b b) with false by now destruct b.
    unfold binary_round_aux.
    destruct (shr_fexp prec emax (Z.pos (m * m)) (e + e) loc_Exact) as [mrs e'].
    destruct (shr_fexp prec emax _ e' loc_Exact) as [mrs' e''].
    destruct (shr_m mrs'); [reflexivity | | reflexivity].
    now destruct (e'' <=? emax - prec)%Z.
Qed.

(** With [dx = 0], the sum under the square root is [dy * dy] itself. *)
Lemma add_zero_square (v : float) : (0 * 0 + v * v)%float = (v * v)%float.
Proof.
  apply Prim2SF_inj. rewrite add_spec, (mul_spec v v).
  change (Prim2SF (0 * 0)) with (S754_zero false).
  apply SFadd_zero_square.
Qed.

(** ** The scan of [checkRings] *)

(** One step of the induction over the rings that are left. *)
Ltac scan_step ring rest IH i g :=
  cbn [checkRingsFrom];
  destruct (passed (plane g) ring) eqn:Hpassed;
  [ destruct (judge (distance (plane g) ring)) eqn:Hjudge;
    [ specialize (IH (S i)
        (log (LogRingPassed i (score (showScore (withScore (score g + 1) g))))
             (showScore (withScore (score g + 1) g))));
      destruct (checkRingsFrom (S i) rest _) as [rest' g'']
    | idtac
    | specialize (IH (S i) g);
      destruct (checkRingsFrom (S i) rest g) as [rest' g''] ]
  | specialize (IH (S i) g);
    destruct (checkRingsFrom (S i) rest g) as [rest' g''] ].

(** The scan writes [score], [crashed], the document and the console, and
    nothing else. *)
Lemma checkRingsFrom_frame (todo : list Ring) : forall (i : nat) (g : Game),
  let g' := snd (checkRingsFrom i todo g) in
  plane g' = plane g /\ rings g' = rings g /\ gameStarted g' = gameStarted g /\
  pitch g' = pitch g /\ gamepadIndex g' = gamepadIndex g /\
  frameRequests g' = frameRequests g.
Proof.
  induction todo as [|ring rest IH]; intros i g; [cbn; tauto|].
  scan_step ring rest IH i g; cbn [snd] in *; try exact IH; cbn; tauto.
Qed.

Lemma checkRingsFrom_length (todo : list Ring) : forall (i : nat) (g : Game),
  length (fst (checkRingsFrom i todo g)) = length todo.
Proof.
  induction todo as [|ring rest IH]; intros i g; [reflexivity|].
  scan_step ring rest IH i g; cbn [fst length] in *; congruence.
Qed.

Lemma firstCrash_cons (p : Vector3.t) (r : Ring) (rest : list Ring) :
  crashes p r = false ->
  reached p (r :: rest) = r :: reached p rest /\
  unreached p (r :: rest) = unreached p rest.
Proof.
  intros H. unfold reached, unreached. cbn [firstCrash]. rewrite H.
  destruct (firstCrash p rest); cbn; auto.
Qed.

Lemma firstCrash_here (p : Vector3.t) (r : Ring) (rest : list Ring) :
  crashes p r = true ->
  reached p (r :: rest) = [r] /\ unreached p (r :: rest) = rest.
Proof.
  intros H. unfold reached, unreached. cbn [firstCrash]. rewrite H. cbn. auto.
Qed.

(** The rings after the scan: those reached are marked, the others are as
    they were. *)
Lemma checkRingsFrom_rings (todo : list Ring) : forall (i : nat) (g : Game),
  fst (checkRingsFrom i todo g) =
  map (mark (plane g)) (reached (plane g) todo) ++ unreached (plane g) todo.
Proof.
  induction todo as [|ring rest IH]; intros i g; [reflexivity|].
  scan_step ring rest IH i g; cbn [fst plane log showScore withScore withDocument] in *.
  - destruct (firstCrash_cons (plane g) ring rest) as [-> ->].
    { unfold crashes. now rewrite Hpassed, Hjudge. }
    cbn [map app]. unfold mark at 1. rewrite Hpassed. now rewrite IH.
  - destruct (firstCrash_here (plane g) ring rest) as [-> ->].
    { unfold crashes. now rewrite Hpassed, Hjudge. }
    cbn [map app]. unfold mark. now rewrite Hpassed.
  - destruct (firstCrash_cons (plane g) ring rest) as [-> ->].
    { unfold crashes. now rewrite Hpassed, Hjudge. }
    cbn [map app]. unfold mark at 1. rewrite Hpassed. now rewrite IH.
  - destruct (firstCrash_cons (plane g) ring rest) as [-> ->].
    { unfold crashes. now rewrite Hpassed. }
    cbn [map app]. unfold mark at 1. rewrite Hpassed. now rewrite IH.
Qed.

Lemma checkRingsFrom_crashed (todo : list Ring) : forall (i : nat) (g : Game),
  crashed (snd (checkRingsFrom i todo g)) =
  match firstCrash (plane g) todo with Some _ => true | None => crashed g end.
Proof.
  induction todo as [|ring rest IH]; intros i g; [reflexivity|].
  scan_step ring rest IH i g; cbn [snd firstCrash] in *; unfold crashes;
    rewrite Hpassed; try rewrite Hjudge; cbn [andb isCrashed]; trivial;
    rewrite IH; cbn [plane crashed log showScore withScore withDocument];
    now destruct (firstCrash (plane g) rest).
Qed.

Lemma newlyScored_same (p : Vector3.t) (rs : list Ring) : newlyScored p rs rs = 0.
Proof.
  unfold newlyScored. induction rs as [|r rs IH]; [reflexivity|].
  cbn [combine filter fst snd]. now destruct (checked r).
Qed.

Lemma newlyScored_cons (p : Vector3.t) (r r' : Ring) (rs rs' : list Ring) :
  newlyScored p (r :: rs) (r' :: rs') =
  (if negb (checked r) && checked r' && isScored (judge (distance p r)) then 1 else 0)
  + newlyScored p rs rs'.
Proof.
  unfold newlyScored. cbn [combine filter fst snd].
  now destruct (negb (checked r) && checked r' && isScored (judge (distance p r))).
Qed.

(** The score goes up by one for each ring that the scan newly marks and
    judges [Scored], and by nothing else. *)
Lemma checkRingsFrom_score (todo : list Ring) : forall (i : nat) (g : Game),
  score (snd (checkRingsFrom i todo g)) =
  score g + newlyScored (plane g) todo (fst (checkRingsFrom i todo g)).
Proof.
  induction todo as [|ring rest IH]; intros i g; [cbn; lia|].
  assert (Hc : passed (plane g) ring = true -> checked ring = false).
  { unfold passed. now destruct (checked ring). }
  scan_step ring rest IH i g; cbn [fst snd] in *; rewrite newlyScored_cons.
  - rewrite IH, Hjudge, (Hc eq_refl). cbn. lia.
  - rewrite newlyScored_same, Hjudge, andb_false_r. cbn. lia.
  - rewrite IH, Hjudge, andb_false_r. cbn. lia.
  - rewrite IH. destruct (checked ring); cbn; lia.
Qed.

Lemma ascending_weaken (lo lo' hi : nat) (l : list LogEntry) :
  lo <= lo' -> ascending lo' hi l -> ascending lo hi l.
Proof.
  intros Hlo. destruct l as [|e rest]; [trivial|]. cbn [ascending].
  destruct (entryIndex e); [|trivial]. intros [H1 H2]. split; [lia | exact H2].
Qed.

(** The scan writes its console lines in increasing order of ring index. *)
Lemma checkRingsFrom_console (todo : list Ring) : forall (i : nat) (g : Game),
  exists new,
    console (snd (checkRingsFrom i todo g)) = console g ++ new /\
    ascending i (i + length todo) new.
Proof.
  induction todo as [|ring rest IH]; intros i g.
  { exists []. cbn. now rewrite app_nil_r. }
  scan_step ring rest IH i g; cbn [snd length] in *.
  - destruct IH as (new & Hnew & Hasc).
    exists (LogRingPassed i (score g + 1) :: new). split.
    + rewrite Hnew. cbn. now rewrite <- app_assoc.
    + cbn [ascending entryIndex]. split; [lia|].
      now replace (i + S (length rest)) with (S i + length rest) by lia.
  - exists [LogCrashed i]. split; [reflexivity|]. cbn. lia.
  - destruct IH as (new & Hnew & Hasc). exists new. split; [exact Hnew|].
    apply (ascending_weaken i (S i)); [lia|].
    now replace (i + S (length rest)) with (S i + length rest) by lia.
  - destruct IH as (new & Hnew & Hasc). exists new. split; [exact Hnew|].
    apply (ascending_weaken i (S i)); [lia|].
    now replace (i + S (length rest)) with (S i + length rest) by lia.
Qed.

(** [firstCrash] is the least index of a ring that is passed and hit. *)
Lemma firstCrash_Some (p : Vector3.t) (rs : list Ring) : forall k : nat,
  firstCrash p rs = Some k ->
  (exists r, nth_error rs k = Some r /\ crashes p r = true) /\
  (forall j r, j < k -> nth_error rs j = Some r -> crashes p r = false).
Proof.
  induction rs as [|r0 rest IH]; intros k; cbn [firstCrash]; [discriminate|].
  destruct (crashes p r0) eqn:E.
  - intros [= <-]. split; [exists r0; auto | intros j r Hj; lia].
  - destruct (firstCrash p rest) as [k'|]; [|discriminate].
    intros [= <-]. destruct (IH k' eq_refl) as [Hk Hlt]. split; [exact Hk|].
    intros [|j] r Hj; cbn [nth_error].
    + intros [= Heq]. now subst r.
    + apply Hlt. lia.
Qed.

Lemma firstCrash_None (p : Vector3.t) (rs : list Ring) :
  firstCrash p rs = None -> forall r, In r rs -> crashes p r = false.
Proof.
  induction rs as [|r0 rest IH]; cbn [firstCrash In]; [tauto|].
  destruct (crashes p r0) eqn:E; [discriminate|].
  destruct (firstCrash p rest); [discriminate|].
  intros _ r [<- | H]; auto.
Qed.

Lemma nth_error_marked_prefix (f : Ring -> Ring) (n : nat) : forall (l : list Ring) (i : nat),
  nth_error (map f (firstn n l) ++ skipn n l) i =
  if i <? n then option_map f (nth_error l i) else nth_error l i.
Proof.
  induction n as [|n IH]; intros l i.
  - cbn. reflexivity.
  - destruct l as [|a l].
    { cbn [firstn skipn map app]. destruct (i <? S n); destruct i; reflexivity. }
    destruct i as [|i]; [reflexivity|]. cbn [firstn skipn map app nth_error].
    rewrite IH. reflexivity.
Qed.

Lemma checkRings_fields (g : Game) :
  let g' := checkRings g in
  plane g' = plane g /\ gameStarted g' = gameStarted g /\ pitch g' = pitch g /\
  gamepadIndex g' = gamepadIndex g /\ frameRequests g' = frameRequests g /\
  rings g' = fst (checkRingsFrom 0 (rings g) g) /\
  crashed g' = crashed (snd (checkRingsFrom 0 (rings g) g)) /\
  score g' = score (snd (checkRingsFrom 0 (rings g) g)) /\
  console g' = console (snd (checkRingsFrom 0 (rings g) g)) /\
  document g' = document (snd (checkRingsFrom 0 (rings g) g)).
Proof.
  unfold checkRings. pose proof (checkRingsFrom_frame (rings g) 0 g) as H.
  destruct (checkRingsFrom 0 (rings g) g) as [rs g']. cbn [fst snd] in *.
  cbn. tauto.
Qed.

(** C8. In one call of [checkRings], ring [i] of the list is treated as
    follows.  If no ring is crashed into, every ring that is unchecked and
    behind the plane is marked, however many there are.  If the first crash is
    at ring [k], the rings up to and including [k] are treated in that way,
    [crashed] is set, and every ring after [k] is left exactly as it was, so
    an unchecked one stays unchecked.  The console lines of the call come in
    increasing order of ring index. *)
Theorem checkRings_scan (g : Game) (i : nat) (r : Ring) :
  nth_error (rings g) i = Some r ->
  let p := plane g in
  let g' := checkRings g in
  match firstCrash p (rings g) with
  | None =>
    nth_error (rings g') i = Some (mark p r) /\ crashed g' = crashed g
  | Some k =>
    (i <= k -> nth_error (rings g') i = Some (mark p r)) /\
    (k < i -> nth_error (rings g') i = Some r) /\
    crashed g' = true
  end /\
  (passed p r = true -> checked (mark p r) = true) /\
  (passed p r = false -> mark p r = r) /\
  score g' = score g + newlyScored p (rings g) (rings g') /\
  exists new,
    console g' = console g ++ new /\ ascending 0 (length (rings g)) new.
Proof.
  intros Hr p g'. subst p g'.
  destruct (checkRings_fields g) as (_ & _ & _ & _ & _ & Hrs & Hcr & Hsc & Hco & _).
  split; [|split; [|split; [|split]]].
  - rewrite Hrs, Hcr, checkRingsFrom_rings, checkRingsFrom_crashed.
    unfold reached, unreached.
    destruct (firstCrash (plane g) (rings g)) as [k|].
    + rewrite nth_error_marked_prefix, Hr. repeat split.
      * intros Hik. destruct (Nat.ltb_spec i (S k)); [reflexivity | lia].
      * intros Hki. destruct (Nat.ltb_spec i (S k)); [lia | reflexivity].
    + rewrite app_nil_r, nth_error_map, Hr. auto.
  - unfold mark. now intros ->.
  - unfold mark. now intros ->.
  - rewrite Hsc, Hrs. apply checkRingsFrom_score.
  - rewrite Hco. apply (checkRingsFrom_console (rings g) 0 g).
Qed.

(** ** Worked examples of the scan *)

Lemma checkRings_scan_witness :
  let g := behindTwoRings 0 in
  nth_error (rings (checkRings g)) 1
  = Some (setChecked true (makeRing ringSpacing ringMajorRadius ringTubeRadius 1)) /\
  crashed (checkRings g) = false /\
  score (checkRings g) = 2.
Proof.
  intros g.
  pose proof (checkRings_scan g 1 (makeRing ringSpacing ringMajorRadius ringTubeRadius 1)
                eq_refl) as H.
  cbn zeta in H.
  change (firstCrash (plane g) (rings g)) with (@None nat) in H.
  destruct H as ((H1 & H2) & _).
  split; [|split; [exact H2 | vm_compute; reflexivity]].
  rewrite H1. vm_compute. reflexivity.
Defined.

(** Scenario D of the specification: one call marks both rings that are behind
    the plane, lower index first. *)
Example scan_crosses_two_rings :
  let g' := checkRings (behindTwoRings 0) in
  map checked (rings g')
  = [true; true; false; false; false; false; false; false; false; false] /\
  console g' = [LogRingPassed 0 1; LogRingPassed 1 2] /\
  score g' = 2 /\ crashed g' = false.
Proof. vm_compute. repeat split. Qed.

(** With the plane 8 below the centre of ring 0 the scan stops there: ring 1
    is behind the plane too and stays unchecked. *)
Example scan_stops_at_crash :
  let g := behindTwoRings (-8) in
  let g' := checkRings g in
  firstCrash (plane g) (rings g) = Some 0 /\
  passed (plane g) (makeRing ringSpacing ringMajorRadius ringTubeRadius 1) = true /\
  map checked (rings g')
  = [true; false; false; false; false; false; false; false; false; false] /\
  console g' = [LogCrashed 0] /\
  score g' = 0 /\ crashed g' = true.
Proof. vm_compute. repeat split. Qed.

(** Scenarios A, B and C: planar distances 5, 8 and 9. *)
Example judge_scenarios :
  innerRadius = 7.3%float /\ outerRadius = 8.7%float /\
  judge 5 = Scored /\ judge 8 = Crashed /\ judge 9 = Missed /\
  judge innerRadius = Crashed /\ judge outerRadius = Crashed /\ judge nan = Missed.
Proof. vm_compute. repeat split. Qed.

(** The branch that [judge] names is the one the scan takes: for a ring that
    is unchecked and behind the plane, [Scored] adds one to the score and goes
    on, [Crashed] sets [crashed] and stops, [Missed] changes neither; the ring
    is marked in all three. *)
Lemma checkRingsFrom_judged (i : nat) (ring : Ring) (g : Game) :
  passed (plane g) ring = true ->
  let g' := snd (checkRingsFrom i [ring] g) in
  fst (checkRingsFrom i [ring] g) = [setChecked true ring] /\
  match judge (distance (plane g) ring) with
  | Scored => score g' = score g + 1 /\ crashed g' = crashed g
  | Crashed => score g' = score g /\ crashed g' = true
  | Missed => score g' = score g /\ crashed g' = crashed g
  end.
Proof.
  intros H. cbn [checkRingsFrom]. rewrite H.
  destruct (judge (distance (plane g) ring)); cbn; auto.
Qed.

(** ** The functions, field by field *)

Lemma updateGamepadInput_fields (pads : Gamepads) (g : Game) :
  let g' := updateGamepadInput pads g in
  plane g' = plane g /\ rings g' = rings g /\ gameStarted g' = gameStarted g /\
  crashed g' = crashed g /\ score g' = score g /\
  gamepadIndex g' = gamepadIndex g /\ document g' = document g /\
  console g' = console g /\ frameRequests g' = frameRequests g.
Proof.
  unfold updateGamepadInput. destruct (gamepadIndex g) as [idx|] eqn:Ei; [|cbn; tauto].
  destruct (crashed g) eqn:Ec; [cbn; tauto|].
  destruct (nth_error pads idx) as [[gamepad|]|]; cbn; tauto.
Qed.

Lemma beforeCheck_fields (pads : Gamepads) (g : Game) :
  let g' := beforeCheck pads g in
  rings g' = rings g /\ gameStarted g' = gameStarted g /\
  crashed g' = crashed g /\ score g' = score g /\
  gamepadIndex g' = gamepadIndex g /\ document g' = document g /\
  console g' = console g /\ frameRequests g' = S (frameRequests g) /\
  pitch g' = pitch (updateGamepadInput pads g) /\
  Vector3.x (plane g') = Vector3.x (plane g) /\
  Vector3.y (plane g') = (Vector3.y (plane g) - pitch g')%float /\
  Vector3.z (plane g') = (Vector3.z (plane g) - speed)%float.
Proof.
  unfold beforeCheck, movePlane.
  pose proof (updateGamepadInput_fields pads (requestAnimationFrame g)) as H.
  cbn zeta in H. cbn [plane rings gameStarted crashed score gamepadIndex document
    console frameRequests pitch withPlane Vector3.x Vector3.y Vector3.z].
  destruct H as (-> & -> & -> & -> & -> & -> & -> & -> & ->).
  cbn. repeat split.
  unfold updateGamepadInput. cbn [gamepadIndex crashed requestAnimationFrame withFrameRequests].
  destruct (gamepadIndex g) as [idx|]; [|reflexivity].
  destruct (crashed g); [reflexivity|].
  destruct (nth_error pads idx) as [[gamepad|]|]; reflexivity.
Qed.

Lemma animate_stopped (pads : Gamepads) (g : Game) :
  negb (gameStarted g) || crashed g = true -> animate pads g = g.
Proof. intros H. unfold animate. now rewrite H. Qed.

Lemma animate_running (pads : Gamepads) (g : Game) :
  negb (gameStarted g) || crashed g = false ->
  animate pads g = checkRings (beforeCheck pads g).
Proof. intros H. unfold animate. now rewrite H. Qed.

Lemma stateOf_Running (g : Game) :
  stateOf g = Running <-> gameStarted g = true /\ crashed g = false.
Proof.
  unfold stateOf. destruct (crashed g), (gameStarted g); split;
    try discriminate; try tauto; intros [? ?]; discriminate.
Qed.

Lemma stateOf_Idle (g : Game) :
  stateOf g = Idle <-> gameStarted g = false /\ crashed g = false.
Proof.
  unfold stateOf. destruct (crashed g), (gameStarted g); split;
    try discriminate; try tauto; intros [? ?]; discriminate.
Qed.

Lemma stateOf_GameOver (g : Game) : stateOf g = GameOver <-> crashed g = true.
Proof.
  unfold stateOf. destruct (crashed g), (gameStarted g); split;
    try discriminate; tauto.
Qed.

(** ** Rings from one state to the next *)

Lemma advance_refl (rs : list Ring) : Forall2 advance rs rs.
Proof. induction rs; constructor; [unfold advance; tauto | assumption]. Qed.

Lemma checkRingsFrom_advance (todo : list Ring) : forall (i : nat) (g : Game),
  Forall2 advance todo (fst (checkRingsFrom i todo g)).
Proof.
  induction todo as [|ring rest IH]; intros i g; [constructor|].
  scan_step ring rest IH i g; cbn [fst] in *; constructor;
    try exact IH; try apply advance_refl; unfold advance; cbn; tauto.
Qed.

Lemma animate_advance (pads : Gamepads) (g : Game) :
  Forall2 advance (rings g) (rings (animate pads g)).
Proof.
  unfold animate. destruct (negb (gameStarted g) || crashed g); [apply advance_refl|].
  fold (beforeCheck pads g).
  destruct (checkRings_fields (beforeCheck pads g)) as (_ & _ & _ & _ & _ & -> & _).
  destruct (beforeCheck_fields pads g) as (-> & _).
  apply checkRingsFrom_advance.
Qed.

Lemma animate_plane_x (pads : Gamepads) (g : Game) :
  Vector3.x (plane (animate pads g)) = Vector3.x (plane g).
Proof.
  unfold animate. destruct (negb (gameStarted g) || crashed g); [reflexivity|].
  fold (beforeCheck pads g).
  destruct (checkRings_fields (beforeCheck pads g)) as (-> & _).
  now destruct (beforeCheck_fields pads g) as (_ & _ & _ & _ & _ & _ & _ & _ & _ & -> & _).
Qed.

Lemma animate_gameStarted (pads : Gamepads) (g : Game) :
  gameStarted (animate pads g) = gameStarted g.
Proof.
  unfold animate. destruct (negb (gameStarted g) || crashed g); [reflexivity|].
  fold (beforeCheck pads g).
  destruct (checkRings_fields (beforeCheck pads g)) as (_ & -> & _).
  now destruct (beforeCheck_fields pads g) as (_ & -> & _).
Qed.

(** An event other than the space bar does some quiet bookkeeping, and then
    calls [animate] or does not. *)
Lemma dispatch_shape (e : Event) (g : Game) :
  isRestart e = false ->
  exists g1, quiet g g1 /\
    (dispatch e g = g1 \/ exists pads, dispatch e g = animate pads g1).
Proof.
  destruct e as [pads | event pads | gamepad pads | ]; cbn [isRestart dispatch]; intros He.
  - destruct (frameRequests g) as [|n].
    + exists g. unfold quiet. tauto.
    + exists (withFrameRequests n g). split; [unfold quiet; cbn; tauto|]. right. now exists pads.
  - rewrite He. destruct (negb (gameStarted g) && negb (crashed g)) eqn:E.
    + unfold startGame. apply andb_true_iff in E. destruct E as [E _]. rewrite E.
      exists (setStartMessage DisplayNone (withGameStarted true g)).
      split; [unfold quiet; cbn; tauto|]. right. now exists pads.
    + exists g. unfold quiet. tauto.
  - cbn [gameStarted crashed withGamepadIndex log].
    destruct (negb (gameStarted g) && negb (crashed g)) eqn:E.
    + unfold startGame. cbn [gameStarted crashed withGamepadIndex log].
      apply andb_true_iff in E. destruct E as [E _]. rewrite E.
      eexists. split; [|right; exists pads; reflexivity]. unfold quiet; cbn; tauto.
    + eexists. split; [|left; reflexivity]. unfold quiet; cbn; tauto.
  - eexists. split; [|left; reflexivity]. unfold quiet; cbn; tauto.
Qed.

(** ** The invariant *)

Lemma sameMesh_advance (a b c : list Ring) :
  Forall2 sameMesh a b -> Forall2 advance b c -> Forall2 sameMesh a c.
Proof.
  intros Hab. revert c. induction Hab as [|x y a b Hxy Hab IH]; intros c Hbc.
  - inversion Hbc. constructor.
  - inversion Hbc as [|y' z b' c' Hyz Hbc']; subst. constructor; [|now apply IH].
    unfold sameMesh, advance in *. destruct Hxy as [<- <-], Hyz as (-> & -> & _). auto.
Qed.

Lemma sameMesh_unchecked (a b : list Ring) :
  Forall2 sameMesh a b -> Forall2 sameMesh a (map (setChecked false) b).
Proof.
  induction 1 as [|x y a b Hxy Hab IH]; cbn [map]; constructor; [|exact IH].
  unfold sameMesh in *. cbn. exact Hxy.
Qed.

Lemma sameMesh_In (a b : list Ring) (r : Ring) :
  Forall2 sameMesh a b -> In r b -> exists r0, In r0 a /\ sameMesh r0 r.
Proof.
  induction 1 as [|x y a b Hxy Hab IH]; cbn [In]; [tauto|].
  intros [<- | Hin].
  - exists x. auto.
  - destruct (IH Hin) as (r0 & H0 & Hs). exists r0. auto.
Qed.

Lemma animate_invariant (pads : Gamepads) (g : Game) :
  invariant g -> invariant (animate pads g).
Proof.
  intros (Hc & Hx & Hr). unfold invariant.
  rewrite animate_plane_x, animate_gameStarted. repeat split.
  - unfold animate. destruct (negb (gameStarted g) || crashed g) eqn:E; [exact Hc|].
    intros _. apply orb_false_iff in E. destruct E as [E _].
    now destruct (gameStarted g).
  - exact Hx.
  - exact (sameMesh_advance _ _ _ Hr (animate_advance pads g)).
Qed.

Lemma restartGame_invariant (g : Game) : invariant g -> invariant (restartGame g).
Proof.
  intros (Hc & Hx & Hr). unfold invariant, restartGame. cbn. repeat split.
  - discriminate.
  - now apply sameMesh_unchecked.
Qed.

Lemma quiet_invariant (g g1 : Game) : quiet g g1 -> invariant g -> invariant g1.
Proof.
  intros (Hp & Hr & Hc & _ & _ & Hs) (Ic & Ix & Ir). unfold invariant.
  rewrite Hp, Hr, Hc. auto.
Qed.

Lemma dispatch_invariant (e : Event) (g : Game) :
  invariant g -> invariant (dispatch e g).
Proof.
  intros Hg. destruct (isRestart e) eqn:He.
  - destruct e as [pads | event pads | gamepad pads | ]; try discriminate.
    cbn [isRestart dispatch] in *. rewrite He. now apply restartGame_invariant.
  - destruct (dispatch_shape e g He) as (g1 & Hq & [-> | [pads ->]]).
    + exact (quiet_invariant _ _ Hq Hg).
    + apply animate_invariant. exact (quiet_invariant _ _ Hq Hg).
Qed.

Lemma initialGame_invariant (page : Document) : invariant (initialGame page).
Proof.
  unfold invariant. cbn [initialGame crashed gameStarted plane rings]. repeat split.
  - discriminate.
  - generalize initialRings. induction l; constructor; [unfold sameMesh; auto | assumption].
Qed.

Lemma reachable_invariant (page : Document) (g : Game) :
  reachable page g -> invariant g.
Proof.
  induction 1 as [|e g Hg IH]; [apply initialGame_invariant | now apply dispatch_invariant].
Qed.

Lemma run_reachable (page : Document) (es : list Event) : forall g : Game,
  reachable page g -> reachable page (run es g).
Proof.
  induction es as [|e es IH]; intros g Hg; [exact Hg|].
  cbn [run fold_left]. apply IH. now constructor.
Qed.

(** ** restartGame *)

(** C2. From whatever state it is called in, [restartGame] leaves the game
    idle (neither started nor crashed) with score 0, every ring unchecked and
    the plane at (0, 0, 500); the space bar calls it in every state.  The rings
    keep their geometry and position. *)
Theorem restartGame_resets (g : Game) :
  let g' := restartGame g in
  stateOf g' = Idle /\
  score g' = 0 /\
  Forall (fun r => checked r = false) (rings g') /\
  plane g' = initialPosition /\
  Forall2 sameMesh (rings g) (rings g') /\
  (forall event pads, isSpace event = true -> dispatch (KeyDown event pads) g = g').
Proof.
  cbn zeta. unfold restartGame, stateOf. cbn. repeat split.
  - induction (rings g); cbn [map]; constructor; [reflexivity | assumption].
  - induction (rings g); cbn [map]; constructor; [unfold sameMesh; auto | assumption].
  - intros event pads ->. reflexivity.
Qed.

(** The space bar after the crash of [diveIntoRim]. *)
Example restart_after_crash :
  let g := run diveIntoRim (initialGame samplePage) in
  let g' := dispatch (KeyDown spaceBar []) g in
  stateOf g = GameOver /\ checkedAt 0 g = true /\
  g' = restartGame g /\
  stateOf g' = Idle /\ score g' = 0 /\ plane g' = initialPosition /\
  forallb (fun r => negb (checked r)) (rings g') = true.
Proof. vm_compute. repeat split. Qed.

(** ** Calls out of turn *)

(** C7. In every state the page can reach, [animate] called while the game is
    not running (idle or crashed) returns the state as it is, and so does
    [startGame] called while the game is running or crashed. *)
Theorem out_of_turn_calls_do_nothing (page : Document) (g : Game) (pads : Gamepads) :
  reachable page g ->
  (stateOf g <> Running -> animate pads g = g) /\
  (stateOf g <> Idle -> startGame pads g = g).
Proof.
  intros Hg. destruct (reachable_invariant page g Hg) as (Hc & _).
  unfold stateOf, animate, startGame. split.
  - destruct (crashed g), (gameStarted g); cbn; congruence.
  - destruct (crashed g), (gameStarted g); cbn; try congruence.
    specialize (Hc eq_refl). discriminate.
Qed.

Lemma out_of_turn_calls_do_nothing_witness :
  let g := run diveIntoRim (initialGame samplePage) in
  stateOf g = GameOver /\ animate (reporting 1) g = g /\ startGame (reporting 1) g = g.
Proof.
  intros g.
  assert (Hs : stateOf g = GameOver) by (vm_compute; reflexivity).
  destruct (out_of_turn_calls_do_nothing samplePage g (reporting 1)
              (run_reachable samplePage diveIntoRim _ (reachable_init samplePage)))
    as [H1 H2].
  split; [exact Hs|]. split; [apply H1 | apply H2]; rewrite Hs; discriminate.
Defined.

(** ** The motion of the plane *)



(** ** The score *)

Lemma animate_score (pads : Gamepads) (g : Game) :
  score (animate pads g) =
  score g + newlyScored (plane (animate pads g)) (rings g) (rings (animate pads g)).
Proof.
  unfold animate. destruct (negb (gameStarted g) || crashed g).
  - rewrite newlyScored_same. lia.
  - fold (beforeCheck pads g).
    destruct (checkRings_fields (beforeCheck pads g))
      as (-> & _ & _ & _ & _ & -> & _ & -> & _).
    rewrite checkRingsFrom_score.
    now destruct (beforeCheck_fields pads g) as (-> & _ & _ & -> & _).
Qed.

Lemma animate_crashed_stays (pads : Gamepads) (g : Game) :
  crashed g = true -> animate pads g = g.
Proof. intros H. apply animate_stopped. rewrite H. apply orb_true_r. Qed.

(** C9. The score never goes down except at a restart, which sets it to 0.
    A tick adds one for each ring that it newly marks and judges [Scored], and
    adds nothing when the game is not running; once the game is crashed, no
    event but a restart changes the score. *)
Theorem score_monotone (e : Event) (g : Game) :
  (isRestart e = false -> score g <= score (dispatch e g)) /\
  (isRestart e = true -> score (dispatch e g) = 0) /\
  (isRestart e = false -> stateOf g = GameOver -> score (dispatch e g) = score g) /\
  (forall pads,
     let g' := animate pads g in
     score g' = score g + newlyScored (plane g') (rings g) (rings g') /\
     newlyScored (plane g') (rings g) (rings g') <= length (rings g) /\
     (stateOf g <> Running -> score g' = score g)) /\
  (score (dispatch e g) < score g -> isRestart e = true).
Proof.
  assert (Hup : isRestart e = false -> score g <= score (dispatch e g)).
  { intros He. destruct (dispatch_shape e g He) as (g1 & Hq & [-> | [pads ->]]);
      destruct Hq as (_ & _ & _ & Hs & _).
    - lia.
    - rewrite animate_score. lia. }
  repeat split.
  - exact Hup.
  - destruct e as [pads | event pads | gamepad pads | ]; try discriminate.
    cbn [isRestart dispatch]. now intros ->.
  - intros He Hs. apply stateOf_GameOver in Hs.
    destruct (dispatch_shape e g He) as (g1 & Hq & [-> | [pads ->]]);
      destruct Hq as (_ & _ & Hc & Hsc & _); [exact Hsc|].
    rewrite animate_crashed_stays; [exact Hsc | congruence].
  - apply animate_score.
  - unfold newlyScored. etransitivity; [apply filter_length_le|].
    rewrite length_combine. apply Nat.le_min_l.
  - intros Hs. rewrite animate_stopped; [reflexivity|].
    unfold stateOf in Hs. destruct (crashed g), (gameStarted g); cbn; congruence.
  - intros Hlt. destruct (isRestart e); [reflexivity|]. specialize (Hup eq_refl). lia.
Qed.

(** Level flight goes through the hole of ring 0 on tick 120 (the key press
    and 119 frames), and through those of rings 1 and 2 by tick 301; after the
    crash of [diveIntoRim] further frames add nothing. *)
Example score_over_level_flight :
  score (run (levelFlight 118) (initialGame samplePage)) = 0 /\
  score (run (levelFlight 119) (initialGame samplePage)) = 1 /\
  score (run (levelFlight 300) (initialGame samplePage)) = 3 /\
  score (run diveIntoRim (initialGame samplePage)) = 0 /\
  score (run (diveIntoRim ++ repeat (AnimationFrame (reporting 0)) 200)
             (initialGame samplePage)) = 0.
Proof. vm_compute. repeat split. Qed.

(** ** The flag of a ring over a play *)

Lemma dispatch_advance (e : Event) (g : Game) :
  isRestart e = false -> Forall2 advance (rings g) (rings (dispatch e g)).
Proof.
  intros He. destruct (dispatch_shape e g He) as (g1 & Hq & [-> | [pads ->]]);
    destruct Hq as (_ & Hr & _).
  - rewrite Hr. apply advance_refl.
  - rewrite <- Hr. apply animate_advance.
Qed.

Lemma advance_checkedAt (g g' : Game) (i : nat) :
  Forall2 advance (rings g) (rings g') ->
  checkedAt i g = true -> checkedAt i g' = true.
Proof.
  unfold checkedAt. generalize (rings g) (rings g'). intros rs rs' H. revert i.
  induction H as [|r r' rs rs' Hr Hrs IH]; intros i; [now destruct i|].
  destruct i as [|i]; cbn [nth_error]; [apply Hr | apply IH].
Qed.

Lemma states_flags_nondecreasing (i : nat) (es : list Event) : forall g : Game,
  forallb (fun e => negb (isRestart e)) es = true ->
  nondecreasing (map (checkedAt i) (states es g)).
Proof.
  induction es as [|e es IH]; intros g Hes; [exact I|].
  cbn [forallb] in Hes. apply andb_true_iff in Hes. destruct Hes as [He Hes].
  apply negb_true_iff in He. specialize (IH (dispatch e g) Hes).
  cbn [states map]. destruct es as [|e' es'];
    (split; [apply advance_checkedAt, dispatch_advance, He | exact IH]).
Qed.

Lemma states_last (i : nat) (es : list Event) : forall g : Game,
  last (map (checkedAt i) (states es g)) false = checkedAt i (run es g).
Proof.
  induction es as [|e es IH]; intros g; [reflexivity|].
  cbn [run fold_left]. fold (run es (dispatch e g)). rewrite <- IH.
  cbn [states map]. now destruct es.
Qed.

Lemma nondecreasing_last (l : list bool) :
  nondecreasing (true :: l) -> last (true :: l) false = true.
Proof.
  induction l as [|b l IH]; [reflexivity|]. intros [Hb Hl].
  rewrite (Hb eq_refl) in *. change (last (true :: true :: l) false) with (last (true :: l) false).
  apply IH. exact Hl.
Qed.

Lemma nondecreasing_counts (l : list bool) :
  nondecreasing l ->
  falls l = 0 /\
  rises l = if negb (hd true l) && last l false then 1 else 0.
Proof.
  induction l as [|a l IH]; [now split|]. destruct l as [|b l]; [now destruct a|].
  intros [Hab Hl]. destruct (IH Hl) as [Hf Hr].
  change (falls (a :: b :: l)) with ((if a && negb b then 1 else 0) + falls (b :: l)).
  change (rises (a :: b :: l)) with ((if negb a && b then 1 else 0) + rises (b :: l)).
  change (last (a :: b :: l) false) with (last (b :: l) false).
  rewrite Hf, Hr. cbn [hd]. destruct a.
  - rewrite (Hab eq_refl). now split.
  - destruct b; [|now split].
    rewrite (nondecreasing_last l Hl). now split.
Qed.

Lemma checkRingsFrom_marks_head (i : nat) (ring : Ring) (rest : list Ring) (g : Game) :
  passed (plane g) ring = true ->
  exists rest', fst (checkRingsFrom i (ring :: rest) g) = setChecked true ring :: rest'.
Proof.
  intros H. cbn [checkRingsFrom]. rewrite H.
  destruct (judge (distance (plane g) ring)).
  - destruct (checkRingsFrom (S i) rest _) as [rest' g']. now exists rest'.
  - now exists rest.
  - destruct (checkRingsFrom (S i) rest g) as [rest' g']. now exists rest'.
Qed.

(** After a tick that leaves the game running, every ring behind the plane has
    its flag set. *)
Lemma animate_leaves_none_behind (pads : Gamepads) (g : Game) :
  stateOf (animate pads g) = Running ->
  forall r, In r (rings (animate pads g)) ->
  (Vector3.z (plane (animate pads g)) <? Vector3.z (position r))%float = true ->
  checked r = true.
Proof.
  intros Hs. apply stateOf_Running in Hs. destruct Hs as [Hs Hc].
  rewrite animate_gameStarted in Hs.
  assert (Hg : crashed g = false).
  { destruct (crashed g) eqn:E; [|reflexivity]. rewrite animate_crashed_stays in Hc; congruence. }
  revert Hc. rewrite animate_running by (now rewrite Hs, Hg).
  destruct (checkRings_fields (beforeCheck pads g)) as (-> & _ & _ & _ & _ & -> & -> & _).
  rewrite checkRingsFrom_crashed, checkRingsFrom_rings. unfold reached, unreached.
  destruct (firstCrash (plane (beforeCheck pads g)) (rings (beforeCheck pads g)));
    [discriminate|].
  intros _ r. rewrite app_nil_r. intros Hin Hz. apply in_map_iff in Hin.
  destruct Hin as (r0 & <- & _). revert Hz. unfold mark, passed.
  destruct (checked r0) eqn:E0; cbn [negb andb]; [now rewrite E0|].
  destruct (Vector3.z (plane (beforeCheck pads g)) <? Vector3.z (position r0))%float eqn:Ez.
  - reflexivity.
  - rewrite Ez. discriminate.
Qed.

Lemma animate_noneBehind (pads : Gamepads) (g : Game) :
  noneBehind g -> noneBehind (animate pads g).
Proof.
  intros Hg Hc r Hin Hz. destruct (gameStarted (animate pads g)) eqn:Hs.
  - apply (animate_leaves_none_behind pads g); trivial.
    apply stateOf_Running. auto.
  - rewrite animate_gameStarted in Hs.
    rewrite animate_stopped in * by (now rewrite Hs). now apply Hg.
Qed.

Lemma initialRings_ahead :
  forallb (fun r => negb (500 <? Vector3.z (position r))%float) initialRings = true.
Proof. vm_compute. reflexivity. Qed.

Lemma restartGame_noneBehind (g : Game) : invariant g -> noneBehind (restartGame g).
Proof.
  intros (_ & _ & Hr) _ r Hin. unfold restartGame in *. cbn in Hin |- *.
  destruct (sameMesh_In _ _ r (sameMesh_unchecked _ _ Hr) Hin) as (r0 & H0 & _ & ->).
  pose proof (proj1 (forallb_forall _ _) initialRings_ahead r0 H0) as H.
  apply negb_true_iff in H. rewrite H. discriminate.
Qed.

Lemma dispatch_noneBehind (e : Event) (g : Game) :
  invariant g -> noneBehind g -> noneBehind (dispatch e g).
Proof.
  intros Hi Hg. destruct (isRestart e) eqn:He.
  - destruct e as [pads | event pads | gamepad pads | ]; try discriminate.
    cbn [isRestart dispatch] in *. rewrite He. now apply restartGame_noneBehind.
  - assert (Hq : forall g1, quiet g g1 -> noneBehind g1).
    { intros g1 (Hp & Hr & Hc & _). unfold noneBehind. rewrite Hp, Hr, Hc. exact Hg. }
    destruct (dispatch_shape e g He) as (g1 & Hq1 & [-> | [pads ->]]).
    + now apply Hq.
    + apply animate_noneBehind. now apply Hq.
Qed.

Lemma reachable_noneBehind (page : Document) (g : Game) :
  reachable page g -> noneBehind g.
Proof.
  induction 1 as [|e g Hg IH].
  - intros _ r Hin. cbn in Hin |- *.
    pose proof (proj1 (forallb_forall _ _) initialRings_ahead r Hin) as H.
    apply negb_true_iff in H. rewrite H. discriminate.
  - apply dispatch_noneBehind; [exact (reachable_invariant page g Hg) | exact IH].
Qed.

Lemma advance_trans (a b c : list Ring) :
  Forall2 advance a b -> Forall2 advance b c -> Forall2 advance a c.
Proof.
  intros Hab. revert c. induction Hab as [|x y a b Hxy Hab IH]; intros c Hbc.
  - inversion Hbc. constructor.
  - inversion Hbc as [|y' z b' c' Hyz Hbc']; subst. constructor; [|now apply IH].
    unfold advance in *. destruct Hxy as (Hg & Hp & Hc), Hyz as (Hg' & Hp' & Hc').
    repeat split; [congruence | congruence | auto].
Qed.

Lemma run_advance (es : list Event) : forall g : Game,
  forallb (fun e => negb (isRestart e)) es = true ->
  Forall2 advance (rings g) (rings (run es g)).
Proof.
  induction es as [|e es IH]; intros g Hes; [apply advance_refl|].
  cbn [forallb] in Hes. apply andb_true_iff in Hes. destruct Hes as [He Hes].
  apply negb_true_iff in He. cbn [run fold_left]. fold (run es (dispatch e g)).
  exact (advance_trans _ _ _ (dispatch_advance e g He) (IH _ Hes)).
Qed.

Lemma advance_nth_error (rs rs' : list Ring) (i : nat) (r : Ring) :
  Forall2 advance rs rs' -> nth_error rs i = Some r ->
  exists r', nth_error rs' i = Some r' /\ advance r r'.
Proof.
  intros H. revert i. induction H as [|x y rs rs' Hxy Hrs IH]; intros i.
  - now destruct i.
  - destruct i as [|i]; cbn [nth_error]; [|apply IH].
    intros [= <-]. exists y. auto.
Qed.

(** C6. Take a state the page can reach, a ring [r] at index [i] and any
    sequence of events without a restart.  Over it the flag of the ring never
    goes from true to false, and goes from false to true at most once: once
    exactly when it starts false and ends true.  It ends true whenever the game
    ends uncrashed with the plane behind the ring, so a ring the play flies
    past is flagged exactly once.  A ring that the scan reaches while it is
    unchecked and behind the plane gets its flag set whatever the outcome. *)
Theorem checked_flag_rises_once
    (page : Document) (g : Game) (es : list Event) (i : nat) (r : Ring) :
  reachable page g ->
  forallb (fun e => negb (isRestart e)) es = true ->
  nth_error (rings g) i = Some r ->
  let g' := run es g in
  let flags := map (checkedAt i) (states es g) in
  falls flags = 0 /\
  rises flags <= 1 /\
  (rises flags = 1 <-> checked r = false /\ checkedAt i g' = true) /\
  (crashed g' = false ->
   (Vector3.z (plane g') <? Vector3.z (position r))%float = true ->
   checkedAt i g' = true) /\
  (forall j rest g0,
     passed (plane g0) r = true ->
     exists rest', fst (checkRingsFrom j (r :: rest) g0) = setChecked true r :: rest').
Proof.
  intros Hg Hes Hi g' flags.
  destruct (nondecreasing_counts flags (states_flags_nondecreasing i es g Hes)) as [Hf Hr].
  assert (Hhd : hd true flags = checked r).
  { subst flags. destruct es; cbn [states map hd]; unfold checkedAt; now rewrite Hi. }
  assert (Hlast : last flags false = checkedAt i g') by apply states_last.
  rewrite Hhd, Hlast in Hr.
  repeat match goal with |- _ /\ _ => split end.
  - exact Hf.
  - rewrite Hr. destruct (negb (checked r) && checkedAt i g'); lia.
  - rewrite Hr. destruct (checked r), (checkedAt i g'); cbn; split;
      try discriminate; try tauto; intros [? ?]; discriminate.
  - intros Hc Hz.
    destruct (advance_nth_error _ _ i r (run_advance es g Hes) Hi) as (r' & Hi' & _ & Hp & _).
    unfold checkedAt. fold g' in Hi'. rewrite Hi'.
    apply (reachable_noneBehind page g' (run_reachable page es g Hg) Hc).
    + exact (nth_error_In _ _ Hi').
    + now rewrite Hp.
  - intros j rest g0. apply checkRingsFrom_marks_head.
Qed.

Lemma checked_flag_rises_once_witness :
  let es := levelFlight 125 in
  let g := initialGame samplePage in
  let flags := map (checkedAt 0) (states es g) in
  falls flags = 0 /\ rises flags = 1.
Proof.
  intros es g flags.
  destruct (checked_flag_rises_once samplePage g es 0
              (makeRing ringSpacing ringMajorRadius ringTubeRadius 0)
              (reachable_init samplePage) eq_refl eq_refl)
    as (Hf & _ & Hr & _).
  split; [exact Hf|]. apply Hr. split; vm_compute; reflexivity.
Defined.

(** ** The pitch *)

(** After the gamepad is unplugged no device is present, and the next tick
    still uses the pitch 0.2 that was read while it was plugged in: the plane
    goes on sinking. *)
Lemma unplugged_pitch_is_kept :
  let g := run plugAndUnplug (initialGame samplePage) in
  reachable samplePage g /\
  gamepadIndex g = None /\
  stateOf g = Running /\
  pitch (updateGamepadInput [] g) <> 0%float /\
  pitch (updateGamepadInput [] g) = (1 * 0.2)%float /\
  Vector3.y (plane g) = (0 - 1 * 0.2)%float /\
  Vector3.y (plane (animate [] g)) = (0 - 1 * 0.2 - 1 * 0.2)%float.
Proof.
  intros g. split.
  { apply run_reachable. constructor. }
  repeat match goal with |- _ /\ _ => split end; try (vm_compute; reflexivity).
  intros H. apply (f_equal (fun v => (v =? 0)%float)) in H.
  vm_compute in H. discriminate.
Qed.

Lemma updateGamepadInput_pitch (pads : Gamepads) (g : Game) :
  pitch (updateGamepadInput pads g) =
  match gamepadIndex g with
  | Some idx =>
    match nth_error pads idx with
    | Some (Some gamepad) => if crashed g then pitch g else rightStickY gamepad
    | _ => pitch g
    end
  | None => pitch g
  end.
Proof.
  unfold updateGamepadInput. destruct (gamepadIndex g) as [idx|]; [|reflexivity].
  destruct (crashed g); [now destruct (nth_error pads idx) as [[?|]|]|].
  now destruct (nth_error pads idx) as [[?|]|].
Qed.

Lemma animate_pitch (pads : Gamepads) (g : Game) :
  pitch (animate pads g) = pitch g \/
  pitch (animate pads g) = pitch (updateGamepadInput pads g).
Proof.
  unfold animate. destruct (negb (gameStarted g) || crashed g); [now left|]. right.
  fold (beforeCheck pads g).
  destruct (checkRings_fields (beforeCheck pads g)) as (_ & _ & -> & _).
  now destruct (beforeCheck_fields pads g) as (_ & _ & _ & _ & _ & _ & _ & _ & -> & _).
Qed.

Lemma animate_gamepadIndex (pads : Gamepads) (g : Game) :
  gamepadIndex (animate pads g) = gamepadIndex g.
Proof.
  unfold animate. destruct (negb (gameStarted g) || crashed g); [reflexivity|].
  fold (beforeCheck pads g).
  destruct (checkRings_fields (beforeCheck pads g)) as (_ & _ & _ & -> & _).
  now destruct (beforeCheck_fields pads g) as (_ & _ & _ & _ & -> & _).
Qed.

(** Without a gamepad index nothing ever writes the pitch. *)
Lemma dispatch_noGamepad (e : Event) (g : Game) :
  noGamepad e = true -> gamepadIndex g = None ->
  gamepadIndex (dispatch e g) = None /\ pitch (dispatch e g) = pitch g.
Proof.
  intros He Hi.
  assert (Ha : forall pads g1, gamepadIndex g1 = None -> pitch g1 = pitch g ->
               gamepadIndex (animate pads g1) = None /\ pitch (animate pads g1) = pitch g).
  { intros pads g1 H1 H2. rewrite animate_gamepadIndex. split; [exact H1|].
    destruct (animate_pitch pads g1) as [-> | ->]; [exact H2|].
    now rewrite updateGamepadInput_pitch, H1. }
  destruct e as [pads | event pads | gamepad pads | ]; try discriminate; cbn [dispatch].
  - destruct (frameRequests g); [auto|]. now apply Ha.
  - destruct (isSpace event); [now cbn|].
    destruct (negb (gameStarted g) && negb (crashed g)); [|auto].
    unfold startGame. destruct (negb (gameStarted g)); [|auto]. now apply Ha.
  - now cbn.
Qed.

Lemma run_noGamepad (es : list Event) : forall g : Game,
  forallb noGamepad es = true -> gamepadIndex g = None ->
  gamepadIndex (run es g) = None /\ pitch (run es g) = pitch g.
Proof.
  induction es as [|e es IH]; intros g Hes Hi; [auto|].
  cbn [forallb] in Hes. apply andb_true_iff in Hes. destruct Hes as [He Hes].
  destruct (dispatch_noGamepad e g He Hi) as [Hi' Hp'].
  cbn [run fold_left]. fold (run es (dispatch e g)).
  destruct (IH (dispatch e g) Hes Hi') as [H1 H2]. split; [exact H1 | congruence].
Qed.

(** C3, as the script has it.  The pitch is a variable that lives across
    frames.  [updateGamepadInput] overwrites it with [axes[3] * 0.2] only when a
    gamepad index is set, the game is not crashed and the browser reports a
    gamepad in that slot; with no device present it leaves the pitch at the
    value it had.  Unplugging the gamepad and restarting the game keep the
    pitch too.  So the pitch without a device is 0 only while no gamepad has
    ever been plugged in. *)
Theorem pitch_kept_without_device (pads : Gamepads) (g : Game) :
  (gamepadIndex g = None -> pitch (updateGamepadInput pads g) = pitch g) /\
  (forall idx, gamepadIndex g = Some idx ->
     nth_error pads idx = None \/ nth_error pads idx = Some None ->
     pitch (updateGamepadInput pads g) = pitch g) /\
  (forall idx gamepad, gamepadIndex g = Some idx -> crashed g = false ->
     nth_error pads idx = Some (Some gamepad) ->
     pitch (updateGamepadInput pads g) = rightStickY gamepad) /\
  pitch (dispatch GamepadDisconnected g) = pitch g /\
  pitch (restartGame g) = pitch g /\
  (forall page es, forallb noGamepad es = true ->
     pitch (run es (initialGame page)) = 0%float).
Proof.
  repeat split.
  - intros H. now rewrite updateGamepadInput_pitch, H.
  - intros idx H [H' | H']; now rewrite updateGamepadInput_pitch, H, H'.
  - intros idx gamepad H Hc H'. now rewrite updateGamepadInput_pitch, H, H', Hc.
  - intros page es Hes. now destruct (run_noGamepad es (initialGame page) Hes eq_refl).
Qed.

(** ** Ring generation *)

Lemma initialRings_In (r : Ring) :
  In r initialRings ->
  exists i, (0 <= i < numRings)%Z /\
            r = makeRing ringSpacing ringMajorRadius ringTubeRadius i.
Proof.
  unfold initialRings. intros H. apply in_map_iff in H.
  destruct H as (n & <- & Hn). apply in_seq in Hn.
  exists (Z.of_nat n). split; [lia | reflexivity].
Qed.

(** X17.  The script builds its rings from its own constants and nothing ever
    writes their geometry, so in every state the page can reach every ring is
    well formed: its tube radius is 0.7, its major radius is 8, the tube is
    thinner than the ring, and the safe radius [innerRadius] is positive. *)
Theorem rings_are_well_formed (page : Document) (g : Game) (r : Ring) :
  reachable page g ->
  In r (rings g) ->
  validRing r = true /\
  radius (geometry r) = ringMajorRadius /\
  tube (geometry r) = ringTubeRadius /\
  (0 <? innerRadius)%float = true.
Proof.
  intros Hg Hr. destruct (reachable_invariant page g Hg) as (_ & _ & Hmesh).
  destruct (sameMesh_In _ _ r Hmesh Hr) as (r0 & H0 & Hgeo & _).
  apply initialRings_In in H0. destruct H0 as (i & _ & ->).
  unfold validRing. rewrite Hgeo. cbn. repeat split.
Qed.

Lemma rings_are_well_formed_witness :
  let g := run diveIntoRim (initialGame samplePage) in
  forallb validRing (rings g) = true.
Proof.
  intros g. apply forallb_forall. intros r Hr.
  exact (proj1 (rings_are_well_formed samplePage g r
                  (run_reachable samplePage _ _ (reachable_init samplePage)) Hr)).
Defined.

(** ** The lateral coordinate and the distance *)

(** The tick in which ring 0 is judged, after a stick reading of 5e-200: the
    plane is about 1e-200 below the centre of the ring, the square of that
    underflows to 0, and the distance that is judged is 0, not the height
    difference. *)
Lemma faint_drift_distance_is_not_height :
  let before := run (removelast faintDrift) (initialGame samplePage) in
  let g := run faintDrift (initialGame samplePage) in
  let ring := makeRing ringSpacing ringMajorRadius ringTubeRadius 0 in
  let dy := (Vector3.y (plane g) - Vector3.y (position ring))%float in
  reachable samplePage g /\
  nth_error (rings before) 0 = Some ring /\
  g = dispatch (AnimationFrame (reporting 0)) before /\
  passed (plane g) ring = true /\
  checkedAt 0 g = true /\
  distance (plane g) ring = 0%float /\
  distance (plane g) ring <> abs dy.
Proof.
  intros before g ring dy. split.
  { apply run_reachable. constructor. }
  repeat match goal with |- _ /\ _ => split end; try (vm_compute; reflexivity).
  intros H. apply (f_equal (fun v => (v =? 0)%float)) in H.
  vm_compute in H. discriminate.
Qed.

Lemma initialRings_x (r : Ring) : In r initialRings -> Vector3.x (position r) = 0%float.
Proof.
  intros H. apply initialRings_In in H. now destruct H as (i & _ & ->).
Qed.

(** C10, as the script has it.  In every state the page can reach, the plane
    is at x = 0 and every ring is centred at x = 0, so the lateral term of the
    distance is exactly zero and the distance that is judged is
    [sqrt(dy * dy)], with [dy] the height of the plane over the centre of the
    ring. *)
Theorem lateral_is_zero (page : Document) (g : Game) (ring : Ring) :
  reachable page g ->
  In ring (rings g) ->
  let dy := (Vector3.y (plane g) - Vector3.y (position ring))%float in
  Vector3.x (plane g) = 0%float /\
  Vector3.x (position ring) = 0%float /\
  distance (plane g) ring = sqrt (dy * dy).
Proof.
  intros Hg Hin dy. destruct (reachable_invariant page g Hg) as (_ & Hx & Hr).
  destruct (sameMesh_In _ _ ring Hr Hin) as (r0 & H0 & _ & Hp).
  assert (Hrx : Vector3.x (position ring) = 0%float).
  { rewrite Hp. now apply initialRings_x. }
  repeat split; trivial.
  unfold distance. rewrite Hx, Hrx. fold dy.
  change (0 - 0)%float with 0%float. now rewrite add_zero_square.
Qed.

Lemma lateral_is_zero_witness :
  let g := run (levelFlight 125) (initialGame samplePage) in
  let ring := setChecked false (makeRing ringSpacing ringMajorRadius ringTubeRadius 1) in
  Vector3.x (plane g) = 0%float /\
  distance (plane g) ring = 6%float.
Proof.
  intros g ring.
  assert (Hin : In ring (rings g)) by (vm_compute; right; left; reflexivity).
  destruct (lateral_is_zero samplePage g ring
              (run_reachable samplePage (levelFlight 125) _ (reachable_init samplePage))
              Hin)
    as (Hx & _ & Hd).
  split; [exact Hx|]. rewrite Hd. vm_compute. reflexivity.
Defined.

(* ================================================================== *)
(** * Further properties of the script *)

(** ** A scan that finds nothing to do *)

Lemma checkRingsFrom_none_passed (todo : list Ring) : forall (i : nat) (g : Game),
  (forall r, In r todo -> passed (plane g) r = false) ->
  checkRingsFrom i todo g = (todo, g).
Proof.
  induction todo as [|ring rest IH]; intros i g H; [reflexivity|].
  cbn [checkRingsFrom]. rewrite (H ring (or_introl eq_refl)).
  rewrite IH; [reflexivity|]. intros r Hr. apply H. now right.
Qed.

Lemma withRings_same (g : Game) : withRings (rings g) g = g.
Proof. now destruct g. Qed.

Lemma checkRings_none_passed (g : Game) :
  (forall r, In r (rings g) -> passed (plane g) r = false) -> checkRings g = g.
Proof.
  intros H. unfold checkRings. rewrite checkRingsFrom_none_passed by exact H.
  apply withRings_same.
Qed.

Lemma passed_mark (p : Vector3.t) (r : Ring) : passed p (mark p r) = false.
Proof.
  unfold mark. destruct (passed p r) eqn:E; [reflexivity | exact E].
Qed.

(** X1.  Calling [checkRings] a second time with the plane where it was does
    nothing, provided the first call did not end in a crash: the flags it set
    keep every ring from being judged again. *)
Theorem checkRings_twice (g : Game) :
  firstCrash (plane g) (rings g) = None ->
  checkRings (checkRings g) = checkRings g.
Proof.
  intros Hnone. apply checkRings_none_passed.
  destruct (checkRings_fields g) as (-> & _ & _ & _ & _ & -> & _).
  rewrite checkRingsFrom_rings. unfold reached, unreached. rewrite Hnone, app_nil_r.
  intros r Hr. apply in_map_iff in Hr. destruct Hr as (r0 & <- & _).
  apply passed_mark.
Qed.

Lemma checkRings_twice_witness :
  let g := behindTwoRings 0 in
  checkRings (checkRings g) = checkRings g /\ checkRings g <> g.
Proof.
  intros g. split.
  - apply (checkRings_twice g). vm_compute. reflexivity.
  - intros H. apply (f_equal score) in H. vm_compute in H. discriminate.
Defined.

(** ** What each event comes to *)

(** An event other than the space bar does one of three things: it leaves the
    game variables alone; it is a frame with a callback pending, and calls
    [animate]; or it finds the game idle and starts it, which hides the start
    message and calls [animate] at once. *)
Lemma dispatch_cases (e : Event) (g : Game) :
  isRestart e = false ->
  (plane (dispatch e g) = plane g /\ rings (dispatch e g) = rings g /\
   gameStarted (dispatch e g) = gameStarted g /\ crashed (dispatch e g) = crashed g /\
   score (dispatch e g) = score g /\ pitch (dispatch e g) = pitch g /\
   document (dispatch e g) = document g /\
   frameRequests (dispatch e g) = frameRequests g /\
   (isStart e = true -> stateOf g <> Idle))
  \/
  (exists pads n, e = AnimationFrame pads /\ frameRequests g = S n /\
     dispatch e g = animate pads (withFrameRequests n g))
  \/
  (isStart e = true /\ stateOf g = Idle /\
   exists g1, dispatch e g = animate (gamepadsOf e) g1 /\
     plane g1 = plane g /\ rings g1 = rings g /\ gameStarted g1 = true /\
     crashed g1 = false /\ score g1 = score g /\ pitch g1 = pitch g /\
     document g1 = mkDocument (scoreText (document g)) (crashMessage (document g))
                              DisplayNone /\
     frameRequests g1 = frameRequests g).
Proof.
  destruct e as [pads | event pads | gamepad pads | ]; cbn [isRestart dispatch isStart gamepadsOf];
    intros He.
  - destruct (frameRequests g) as [|n] eqn:En.
    + left. repeat split; trivial. discriminate.
    + right. left. now exists pads, n.
  - rewrite He. unfold startGame, stateOf.
    destruct (gameStarted g) eqn:Es, (crashed g) eqn:Ec; cbn [negb andb].
    + left. repeat split; trivial. discriminate.
    + left. repeat split; trivial. discriminate.
    + left. repeat split; trivial. discriminate.
    + right. right. repeat split; trivial.
      eexists. split; [reflexivity|]. rewrite <- Ec. cbn. repeat split; trivial.
  - cbn [gameStarted crashed withGamepadIndex log]. unfold startGame, stateOf.
    cbn [gameStarted crashed withGamepadIndex log].
    destruct (gameStarted g) eqn:Es, (crashed g) eqn:Ec; cbn [negb andb].
    + left. repeat split; trivial. discriminate.
    + left. repeat split; trivial. discriminate.
    + left. repeat split; trivial. discriminate.
    + right. right. repeat split; trivial.
      eexists. split; [reflexivity|]. rewrite <- Ec. cbn. repeat split; trivial.
  - left. cbn. repeat split; trivial. discriminate.
Qed.

Lemma animate_started (pads : Gamepads) (g : Game) :
  gameStarted g = true -> crashed g = false ->
  animate pads g = checkRings (beforeCheck pads g).
Proof. intros Hs Hc. apply animate_running. now rewrite Hs, Hc. Qed.

(** A tick that leaves the game running has run, and has asked for the next
    frame. *)
Lemma animate_asks_for_frame (pads : Gamepads) (g : Game) :
  stateOf (animate pads g) = Running ->
  gameStarted g = true /\ crashed g = false /\
  frameRequests (animate pads g) = S (frameRequests g).
Proof.
  intros Hs. apply stateOf_Running in Hs. destruct Hs as [Hs Hc].
  rewrite animate_gameStarted in Hs.
  assert (Hg : crashed g = false).
  { destruct (crashed g) eqn:E; [|reflexivity]. rewrite animate_crashed_stays in Hc; congruence. }
  repeat split; trivial. rewrite animate_started by assumption.
  destruct (checkRings_fields (beforeCheck pads g)) as (_ & _ & _ & _ & -> & _).
  now destruct (beforeCheck_fields pads g) as (_ & _ & _ & _ & _ & _ & _ & -> & _).
Qed.

(** ** The frame loop *)

Lemma reachable_running_frame (page : Document) (g : Game) :
  reachable page g -> stateOf g = Running -> 1 <= frameRequests g.
Proof.
  induction 1 as [|e g Hg IH]; [discriminate|].
  intros Hs. destruct (isRestart e) eqn:He.
  - destruct e as [pads | event pads | gamepad pads | ]; try discriminate.
    cbn [isRestart dispatch] in *. rewrite He in Hs. discriminate.
  - destruct (dispatch_cases e g He)
      as [(_ & _ & Hst & Hcr & _ & _ & _ & Hfr & _) | [(pads & n & -> & Hn & Hd) | (_ & _ & g1 & Hd & _)]].
    + rewrite Hfr. apply IH. apply stateOf_Running in Hs. apply stateOf_Running.
      now rewrite <- Hst, <- Hcr.
    + rewrite Hd in *. destruct (animate_asks_for_frame _ _ Hs) as (_ & _ & ->). lia.
    + rewrite Hd in *. destruct (animate_asks_for_frame _ _ Hs) as (_ & _ & ->). lia.
Qed.

(** X2.  In every state the page can reach, a running game has a frame callback
    pending: the loop that [animate] keeps up by asking for the next frame
    cannot die while the game runs, and every frame that fires runs a tick. *)
Theorem running_has_frame_pending (page : Document) (g : Game) :
  reachable page g -> stateOf g = Running ->
  1 <= frameRequests g /\
  (forall pads,
     dispatch (AnimationFrame pads) g
     = animate pads (withFrameRequests (frameRequests g - 1) g)).
Proof.
  intros Hg Hs. pose proof (reachable_running_frame page g Hg Hs) as H.
  split; [exact H|]. intros pads. cbn [dispatch].
  destruct (frameRequests g) as [|n]; [lia|]. now rewrite Nat.sub_succ, Nat.sub_0_r.
Qed.

Lemma running_has_frame_pending_witness :
  1 <= frameRequests (run (levelFlight 50) (initialGame samplePage)).
Proof.
  refine (proj1 (running_has_frame_pending samplePage _ _ _)).
  - apply run_reachable. constructor.
  - vm_compute. reflexivity.
Defined.

(** ** Idle, start and restart *)

Lemma restartGame_fresh (g : Game) : fresh (restartGame g).
Proof.
  unfold fresh, restartGame. cbn. repeat split.
  induction (rings g); cbn [map]; constructor; [reflexivity | assumption].
Qed.

Lemma reachable_idle_fresh (page : Document) (g : Game) :
  reachable page g -> stateOf g = Idle -> fresh g.
Proof.
  induction 1 as [|e g Hg IH].
  - intros _. unfold fresh. cbn. repeat split.
    unfold initialRings. apply Forall_forall. intros r Hr.
    apply in_map_iff in Hr. now destruct Hr as (i & <- & _).
  - intros Hs. destruct (isRestart e) eqn:He.
    + destruct e as [pads | event pads | gamepad pads | ]; try discriminate.
      cbn [isRestart dispatch] in *. rewrite He. apply restartGame_fresh.
    + apply stateOf_Idle in Hs. destruct Hs as [Hs Hc].
      destruct (dispatch_cases e g He)
        as [(Hp & Hr & Hst & Hcr & Hsc & _) | [(pads & n & -> & Hn & Hd) | (_ & _ & g1 & Hd & _ & _ & Hs1 & _)]].
      * unfold fresh. rewrite Hp, Hr, Hsc. apply IH. apply stateOf_Idle.
        now rewrite <- Hst, <- Hcr.
      * rewrite Hd in *. rewrite animate_gameStarted in Hs. cbn in Hs.
        rewrite animate_stopped by (cbn; now rewrite Hs). unfold fresh. cbn.
        apply IH. apply stateOf_Idle. split; [exact Hs|].
        rewrite animate_stopped in Hc by (cbn; now rewrite Hs). exact Hc.
      * rewrite Hd, animate_gameStarted in Hs. congruence.
Qed.

(** X3.  In every state the page can reach, an idle game is untouched: the plane is
    at (0, 0, 500), the score is 0 and no ring is checked.  A game can only be
    started from such a state. *)
Theorem idle_is_fresh (page : Document) (g : Game) :
  reachable page g -> stateOf g = Idle -> fresh g.
Proof. exact (reachable_idle_fresh page g). Qed.

Lemma idle_is_fresh_witness :
  fresh (run (diveIntoRim ++ [KeyDown spaceBar []; AnimationFrame []])
             (initialGame samplePage)).
Proof.
  apply (idle_is_fresh samplePage).
  - apply run_reachable. constructor.
  - vm_compute. reflexivity.
Defined.

Lemma initialRings_ahead_of_first_tick :
  forallb (fun r => negb (500 - speed <? Vector3.z (position r))%float) initialRings = true.
Proof. vm_compute. reflexivity. Qed.

Lemma start_first_tick (page : Document) (g : Game) (e : Event) :
  reachable page g ->
  stateOf g = Idle ->
  isStart e = true ->
  let g' := dispatch e g in
  stateOf g' = Running /\
  plane g' = Vector3.set 0 (0 - pitch g') (500 - speed) /\
  rings g' = rings g /\
  score g' = 0 /\
  startMessage (document g') = DisplayNone /\
  frameRequests g' = S (frameRequests g).
Proof.
  intros Hg Hs He g'. subst g'.
  destruct (reachable_idle_fresh page g Hg Hs) as (Hp & Hsc & Hch).
  destruct (reachable_invariant page g Hg) as (_ & _ & Hmesh).
  assert (Hr : isRestart e = false).
  { destruct e as [pads | event pads | gamepad pads | ]; cbn in He |- *; trivial.
    now apply negb_true_iff in He. }
  destruct (dispatch_cases e g Hr)
    as [(_ & _ & _ & _ & _ & _ & _ & _ & Hno) | [(pads & n & -> & _) | (_ & _ & g1 & Hd & Hp1 & Hr1 & Hs1 & Hc1 & Hsc1 & Hpi1 & Hdoc1 & Hfr1)]];
    [now elim (Hno He) | discriminate |].
  rewrite Hd, (animate_started _ _ Hs1 Hc1).
  destruct (beforeCheck_fields (gamepadsOf e) g1)
    as (Br & Bs & Bc & Bsc & _ & Bdoc & _ & Bfr & Bpi & Bx & By & Bz).
  assert (Hplane : plane (beforeCheck (gamepadsOf e) g1)
                   = Vector3.set 0 (0 - pitch (beforeCheck (gamepadsOf e) g1)) (500 - speed)).
  { destruct (plane (beforeCheck (gamepadsOf e) g1)) as [px py pz] eqn:E.
    cbn [Vector3.x Vector3.y Vector3.z] in Bx, By, Bz.
    rewrite Hp1, Hp in Bx, By, Bz. cbn in Bx, By, Bz. now subst. }
  rewrite checkRings_none_passed.
  - unfold stateOf. rewrite Bc, Bs, Hc1, Hs1, Br, Hr1, Bsc, Hsc1, Hsc, Bdoc, Hdoc1, Bfr, Hfr1.
    repeat split; trivial.
  - rewrite Br, Hr1, Hplane. intros r Hin.
    destruct (sameMesh_In _ _ r Hmesh Hin) as (r0 & H0 & _ & Hpos).
    pose proof (proj1 (forallb_forall _ _) initialRings_ahead_of_first_tick r0 H0) as H.
    apply negb_true_iff in H. unfold passed. rewrite Hpos.
    cbn [Vector3.z]. rewrite H. apply andb_false_r.
Qed.

(** X4.  Starting an idle game runs the first tick in the same event: the game is
    running, the plane has already moved to z = 500 - speed and to the height
    0 - pitch, no ring has been touched, the start message is hidden and one
    more frame callback is pending. *)
Theorem start_runs_first_tick (page : Document) (g : Game) (e : Event) :
  reachable page g ->
  stateOf g = Idle ->
  isStart e = true ->
  let g' := dispatch e g in
  stateOf g' = Running /\
  plane g' = Vector3.set 0 (0 - pitch g') (500 - speed) /\
  rings g' = rings g /\
  score g' = 0 /\
  startMessage (document g') = DisplayNone /\
  frameRequests g' = S (frameRequests g).
Proof. exact (start_first_tick page g e). Qed.

Lemma start_runs_first_tick_witness :
  let g' := dispatch (GamepadConnected (padWith 1) (reporting 1)) (initialGame samplePage) in
  stateOf g' = Running /\
  plane g' = Vector3.set 0 (0 - 1 * 0.2) (500 - speed) /\
  frameRequests g' = 1.
Proof.
  intros g'.
  destruct (start_runs_first_tick samplePage (initialGame samplePage)
              (GamepadConnected (padWith 1) (reporting 1))
              (reachable_init samplePage) eq_refl eq_refl)
    as (Hs & Hp & _ & _ & _ & Hf).
  subst g'. split; [exact Hs|]. split; [|exact Hf]. rewrite Hp. vm_compute. reflexivity.
Defined.

Lemma isSpace_isRestart (event : KeyboardEvent) (pads : Gamepads) :
  isSpace event = true -> isRestart (KeyDown event pads) = true.
Proof. trivial. Qed.

(** X5.  A restart does not cancel the frame callback that is pending, and a start
    adds one: after the space bar and then a starting event the game runs
    with one more callback pending than before.  The pending callbacks each
    run a tick per display frame, so the plane then moves that many times
    faster. *)
Theorem restart_then_start_adds_a_frame
    (page : Document) (g : Game) (event : KeyboardEvent) (pads : Gamepads) (e : Event) :
  reachable page g ->
  isSpace event = true ->
  isStart e = true ->
  let g' := dispatch e (dispatch (KeyDown event pads) g) in
  stateOf g' = Running /\
  frameRequests g' = S (frameRequests g) /\
  (stateOf g = Running -> 2 <= frameRequests g').
Proof.
  intros Hg Hsp He g'. subst g'.
  assert (Hr : dispatch (KeyDown event pads) g = restartGame g).
  { cbn [dispatch]. now rewrite Hsp. }
  assert (Hg' : reachable page (restartGame g)).
  { rewrite <- Hr. now constructor. }
  rewrite Hr.
  destruct (start_first_tick page (restartGame g) e Hg' eq_refl He)
    as (Hs & _ & _ & _ & _ & Hf).
  split; [exact Hs|]. split; [exact Hf|].
  intros Hrun. rewrite Hf. cbn.
  pose proof (reachable_running_frame page g Hg Hrun). lia.
Qed.

Lemma restart_then_start_adds_a_frame_witness :
  let g := run (levelFlight 10) (initialGame samplePage) in
  let g' := run [KeyDown spaceBar []; KeyDown anyKey []] g in
  stateOf g' = Running /\ frameRequests g = 1 /\ frameRequests g' = 2.
Proof.
  intros g g'.
  destruct (restart_then_start_adds_a_frame samplePage g spaceBar [] (KeyDown anyKey [])
              (run_reachable samplePage _ _ (reachable_init samplePage)) eq_refl eq_refl)
    as (Hs & Hf & _).
  split; [exact Hs|]. split; [vm_compute; reflexivity|].
  unfold g'. cbn [run fold_left]. rewrite Hf. vm_compute. reflexivity.
Defined.

(** ** After a crash *)

(** X6.  A crashed game is frozen: whatever event arrives, other than the space
    bar, the plane, the rings, the score, the pitch, the flags and the document
    stay as they are.  Only the gamepad index, the console and the count of
    pending frames can still change. *)
Theorem crashed_game_is_frozen (e : Event) (g : Game) :
  crashed g = true ->
  isRestart e = false ->
  let g' := dispatch e g in
  plane g' = plane g /\ rings g' = rings g /\ score g' = score g /\
  pitch g' = pitch g /\ gameStarted g' = gameStarted g /\ crashed g' = true /\
  document g' = document g /\ frameRequests g' <= frameRequests g.
Proof.
  intros Hc He g'. subst g'.
  destruct (dispatch_cases e g He)
    as [(Hp & Hr & Hst & Hcr & Hsc & Hpi & Hd & Hf & _) | [(pads & n & -> & Hn & Hd) | (_ & Hi & _)]].
  - rewrite Hp, Hr, Hst, Hcr, Hsc, Hpi, Hd, Hf. repeat split; trivial.
  - rewrite Hd, animate_crashed_stays by exact Hc. cbn. repeat split; trivial. lia.
  - apply stateOf_Idle in Hi. destruct Hi; congruence.
Qed.

Lemma crashed_game_is_frozen_witness :
  let g := run diveIntoRim (initialGame samplePage) in
  let g' := dispatch (GamepadConnected (padWith 1) (reporting 1)) g in
  crashed g = true /\ plane g' = plane g /\ score g' = score g /\ pitch g' = pitch g.
Proof.
  intros g g'.
  assert (Hc : crashed g = true) by (vm_compute; reflexivity).
  destruct (crashed_game_is_frozen (GamepadConnected (padWith 1) (reporting 1)) g Hc eq_refl)
    as (Hp & _ & Hs & Hpi & _).
  split; [exact Hc|]. split; [exact Hp|]. split; [exact Hs | exact Hpi].
Defined.

Lemma withFrameRequests_same (g : Game) : withFrameRequests (frameRequests g) g = g.
Proof. now destruct g. Qed.

(** X7.  While the game is not running, frames only use up the callbacks that are
    pending: after any number of them the game is as it was, with that many
    fewer callbacks pending, and once none is pending a frame changes nothing.
    So the loop comes to rest by itself after a crash or a restart. *)
Theorem frames_drain_when_stopped (padsList : list Gamepads) : forall g : Game,
  stateOf g <> Running ->
  run (map AnimationFrame padsList) g
  = withFrameRequests (frameRequests g - length padsList) g.
Proof.
  induction padsList as [|pads rest IH]; intros g Hs.
  - cbn [map run fold_left length]. rewrite Nat.sub_0_r. symmetry. apply withFrameRequests_same.
  - cbn [map run fold_left length dispatch]. fold (run (map AnimationFrame rest)).
    destruct (frameRequests g) as [|n] eqn:En.
    + rewrite IH by exact Hs. now rewrite En.
    + assert (Hstop : negb (gameStarted g) || crashed g = true).
      { unfold stateOf in Hs. destruct (crashed g), (gameStarted g); cbn; congruence. }
      rewrite animate_stopped by exact Hstop. rewrite IH by exact Hs. reflexivity.
Qed.

Lemma frames_drain_when_stopped_witness :
  let g := run diveIntoRim (initialGame samplePage) in
  frameRequests g = 1 /\
  run (map AnimationFrame [[]; reporting 1; []]) g = withFrameRequests 0 g.
Proof.
  intros g. split; [vm_compute; reflexivity|].
  rewrite (frames_drain_when_stopped [[]; reporting 1; []] g)
    by (vm_compute; discriminate).
  vm_compute. reflexivity.
Defined.

(** ** restartGame again *)

(** X8.  Restarting twice is restarting once; and a restart keeps what it does not
    reset: the pitch, the gamepad index, the console and the pending frames. *)
Theorem restartGame_idempotent (g : Game) :
  restartGame (restartGame g) = restartGame g /\
  pitch (restartGame g) = pitch g /\
  gamepadIndex (restartGame g) = gamepadIndex g /\
  console (restartGame g) = console g /\
  frameRequests (restartGame g) = frameRequests g.
Proof.
  split; [|now cbn].
  assert (Hm : forall rs, map (setChecked false) (map (setChecked false) rs)
                          = map (setChecked false) rs).
  { intros rs. rewrite map_map. apply map_ext. now intros []. }
  destruct g as [p rs started cr sc pi idx doc con fr].
  cbv [restartGame setStartMessage setCrashMessage showScore withDocument withRings
       withScore withGameStarted withCrashed withPlane
       plane rings gameStarted crashed score pitch gamepadIndex document console
       frameRequests scoreText crashMessage startMessage].
  now rewrite Hm.
Qed.

(** ** The ring field and the score *)

Lemma sameMesh_maps (a b : list Ring) :
  Forall2 sameMesh a b ->
  length b = length a /\ map position b = map position a /\
  map geometry b = map geometry a.
Proof.
  induction 1 as [|x y a b (Hg & Hp) Hab (IH1 & IH2 & IH3)]; [now cbn|].
  cbn [length map]. now rewrite IH1, IH2, IH3, Hg, Hp.
Qed.

(** X9.  In every state the page can reach there are the ten rings that were
    built when the script was loaded, each where it was built and with the same
    geometry: the game only ever writes their [checked] flags. *)
Theorem ring_field_is_fixed (page : Document) (g : Game) :
  reachable page g ->
  length (rings g) = 10 /\
  map position (rings g) = map position initialRings /\
  map geometry (rings g) = map geometry initialRings.
Proof.
  intros Hg. destruct (reachable_invariant page g Hg) as (_ & _ & Hr).
  destruct (sameMesh_maps _ _ Hr) as (H1 & H2 & H3). now rewrite H1.
Qed.

Lemma ring_field_is_fixed_witness :
  map (fun r => Vector3.z (position r)) (rings (run diveIntoRim (initialGame samplePage)))
  = [300; 150; 0; -150; -300; -450; -600; -750; -900; -1050]%float.
Proof.
  change (fun r => Vector3.z (position r)) with (fun r => Vector3.z (id position r)).
  rewrite <- (map_map position Vector3.z).
  destruct (ring_field_is_fixed samplePage (run diveIntoRim (initialGame samplePage))
              (run_reachable samplePage _ _ (reachable_init samplePage)))
    as (_ & -> & _).
  vm_compute. reflexivity.
Defined.

Lemma checkedCount_cons (r : Ring) (rs : list Ring) :
  checkedCount (r :: rs) = (if checked r then 1 else 0) + checkedCount rs.
Proof. unfold checkedCount. cbn [filter]. now destruct (checked r). Qed.

Lemma checkedCount_le_length (rs : list Ring) : checkedCount rs <= length rs.
Proof. apply filter_length_le. Qed.

(** Every newly scored ring is one more ring checked. *)
Lemma advance_checkedCount (p : Vector3.t) (rs rs' : list Ring) :
  Forall2 advance rs rs' ->
  checkedCount rs + newlyScored p rs rs' <= checkedCount rs'.
Proof.
  induction 1 as [|r r' rs rs' (_ & _ & Hc) Hrs IH].
  - unfold newlyScored. cbn. lia.
  - rewrite newlyScored_cons, !checkedCount_cons.
    destruct (checked r); [rewrite (Hc eq_refl); cbn [negb andb]; lia|].
    destruct (checked r'); cbn [negb andb]; [|lia].
    destruct (isScored (judge (distance p r))); lia.
Qed.

Lemma reachable_score_le_checked (page : Document) (g : Game) :
  reachable page g -> score g <= checkedCount (rings g).
Proof.
  induction 1 as [|e g Hg IH]; [cbn; lia|].
  destruct (isRestart e) eqn:He.
  - destruct e as [pads | event pads | gamepad pads | ]; try discriminate.
    cbn [isRestart dispatch] in *. rewrite He. cbn. lia.
  - destruct (dispatch_shape e g He) as (g1 & (_ & Hr & _ & Hs & _) & [-> | [pads ->]]).
    + now rewrite Hr, Hs.
    + rewrite animate_score.
      pose proof (advance_checkedCount (plane (animate pads g1)) _ _ (animate_advance pads g1)).
      rewrite Hr, Hs in *. lia.
Qed.

(** X10.  In every state the page can reach, the score is at most the number of
    rings that are checked, hence at most 10. *)
Theorem score_at_most_checked (page : Document) (g : Game) :
  reachable page g ->
  score g <= checkedCount (rings g) /\ score g <= 10.
Proof.
  intros Hg. pose proof (reachable_score_le_checked page g Hg) as H.
  split; [exact H|].
  destruct (reachable_invariant page g Hg) as (_ & _ & Hr).
  destruct (sameMesh_maps _ _ Hr) as (Hl & _).
  pose proof (checkedCount_le_length (rings g)) as H'. rewrite Hl in H'.
  change (length initialRings) with 10 in H'. lia.
Qed.

Lemma score_at_most_checked_witness :
  let g := run (levelFlight 300) (initialGame samplePage) in
  score g = 3 /\ checkedCount (rings g) = 3 /\ score g <= 10.
Proof.
  intros g.
  destruct (score_at_most_checked samplePage g
              (run_reachable samplePage _ _ (reachable_init samplePage))) as (_ & H).
  split; [vm_compute; reflexivity|]. split; [vm_compute; reflexivity | exact H].
Defined.

(** ** A height that is not a number *)

Lemma isNumber_false_iff (x : float) : isNumber x = false <-> Prim2SF x = S754_nan.
Proof.
  split.
  - intros H. destruct (Prim2SF x) as [b | b | | b m e] eqn:E; trivial;
      exfalso; apply not_true_iff_false in H; apply H; apply isNumber_key;
      unfold fkey; rewrite E; destruct b; cbn; eauto.
  - intros H. apply not_true_iff_false. intros Hn. apply isNumber_key in Hn.
    destruct Hn as [k Hk]. unfold fkey in Hk. rewrite H in Hk. discriminate.
Qed.

Lemma sub_nan_l (a b : float) : isNumber a = false -> isNumber (a - b) = false.
Proof.
  rewrite !isNumber_false_iff, sub_spec. now intros ->.
Qed.

Lemma sub_nan_r (a b : float) : isNumber b = false -> isNumber (a - b) = false.
Proof.
  rewrite !isNumber_false_iff, sub_spec. intros ->. now destruct (Prim2SF a).
Qed.

Lemma mul_nan (a : float) : isNumber a = false -> isNumber (a * a) = false.
Proof.
  rewrite !isNumber_false_iff, mul_spec. now intros ->.
Qed.

Lemma add_nan_r (a b : float) : isNumber b = false -> isNumber (a + b) = false.
Proof.
  rewrite !isNumber_false_iff, add_spec. intros ->. now destruct (Prim2SF a).
Qed.

Lemma sqrt_nan (a : float) : isNumber a = false -> isNumber (sqrt a) = false.
Proof.
  rewrite !isNumber_false_iff, sqrt_spec. now intros ->.
Qed.

Lemma distance_nan (p : Vector3.t) (ring : Ring) :
  isNumber (Vector3.y p) = false -> isNumber (distance p ring) = false.
Proof.
  intros H. unfold distance. apply sqrt_nan, add_nan_r, mul_nan, sub_nan_l, H.
Qed.

(** A scan in which every ring that is judged is missed only sets flags. *)
Lemma checkRingsFrom_all_missed (todo : list Ring) : forall (i : nat) (g : Game),
  (forall r, In r todo -> judge (distance (plane g) r) = Missed) ->
  snd (checkRingsFrom i todo g) = g.
Proof.
  induction todo as [|ring rest IH]; intros i g H; [reflexivity|].
  pose proof (H ring (or_introl eq_refl)) as Hj.
  assert (Hrest : forall r, In r rest -> judge (distance (plane g) r) = Missed)
    by (intros r Hr; apply H; now right).
  specialize (IH (S i) g Hrest).
  cbn [checkRingsFrom]. rewrite Hj.
  destruct (passed (plane g) ring);
    destruct (checkRingsFrom (S i) rest g) as [rest' g']; exact IH.
Qed.

Lemma animate_nan_height (pads : Gamepads) (g : Game) :
  isNumber (Vector3.y (plane g)) = false ->
  isNumber (Vector3.y (plane (animate pads g))) = false /\
  score (animate pads g) = score g /\ crashed (animate pads g) = crashed g /\
  document (animate pads g) = document g.
Proof.
  intros H. unfold animate. destruct (negb (gameStarted g) || crashed g); [auto|].
  fold (beforeCheck pads g).
  destruct (beforeCheck_fields pads g) as (_ & _ & Bc & Bs & _ & Bd & _ & _ & _ & _ & By & _).
  assert (Hy : isNumber (Vector3.y (plane (beforeCheck pads g))) = false).
  { rewrite By. now apply sub_nan_l. }
  destruct (checkRings_fields (beforeCheck pads g))
    as (-> & _ & _ & _ & _ & _ & -> & -> & _ & ->).
  rewrite checkRingsFrom_all_missed; [auto|].
  intros r _. apply judge_nan. now apply distance_nan.
Qed.

(** X11.  Once the height of the plane is not a number it stays so, and no ring is
    scored or crashed into any more: until the space bar is pressed the score
    and the crashed flag never change, whatever events arrive. *)
Theorem nan_height_ends_judging (es : list Event) : forall g : Game,
  forallb (fun e => negb (isRestart e)) es = true ->
  isNumber (Vector3.y (plane g)) = false ->
  isNumber (Vector3.y (plane (run es g))) = false /\
  score (run es g) = score g /\ crashed (run es g) = crashed g.
Proof.
  induction es as [|e es IH]; intros g Hes Hy; [auto|].
  cbn [forallb] in Hes. apply andb_true_iff in Hes. destruct Hes as [He Hes].
  apply negb_true_iff in He. cbn [run fold_left]. fold (run es (dispatch e g)).
  assert (Hstep : isNumber (Vector3.y (plane (dispatch e g))) = false /\
                  score (dispatch e g) = score g /\ crashed (dispatch e g) = crashed g).
  { destruct (dispatch_shape e g He) as (g1 & (Hp & _ & Hc & Hs & _) & [-> | [pads ->]]).
    - now rewrite Hp, Hc, Hs.
    - rewrite <- Hp in Hy. destruct (animate_nan_height pads g1 Hy) as (H1 & H2 & H3 & _).
      rewrite H2, H3. auto. }
  destruct Hstep as (H1 & H2 & H3). destruct (IH _ Hes H1) as (I1 & I2 & I3).
  rewrite I2, I3. auto.
Qed.

(** X12.  A gamepad that reports fewer than four axes has no [axes[3]]: the tick that
    reads it while the game runs sets the pitch, and with it the height of the
    plane, to NaN. *)
Theorem short_axes_give_nan_height
    (pads : Gamepads) (g : Game) (idx : nat) (gamepad : Gamepad) :
  stateOf g = Running ->
  gamepadIndex g = Some idx ->
  nth_error pads idx = Some (Some gamepad) ->
  length (axes gamepad) <= 3 ->
  let g' := animate pads g in
  isNumber (pitch g') = false /\ isNumber (Vector3.y (plane g')) = false.
Proof.
  intros Hs Hi Hp Hl g'. subst g'. apply stateOf_Running in Hs. destruct Hs as [Hs Hc].
  rewrite animate_started by assumption.
  destruct (checkRings_fields (beforeCheck pads g)) as (-> & _ & -> & _).
  destruct (beforeCheck_fields pads g) as (_ & _ & _ & _ & _ & _ & _ & _ & Bp & _ & By & _).
  assert (Hn : isNumber (pitch (beforeCheck pads g)) = false).
  { rewrite Bp, updateGamepadInput_pitch, Hi, Hp, Hc. unfold rightStickY.
    destruct (nth_error (axes gamepad) 3) eqn:E; [|reflexivity].
    assert (3 < length (axes gamepad)) by (apply nth_error_Some; congruence). lia. }
  split; [exact Hn|]. rewrite By. now apply sub_nan_r.
Qed.

Lemma short_axes_give_nan_height_witness :
  let g := run [GamepadConnected twoAxisPad []] (initialGame samplePage) in
  let g' := animate [Some twoAxisPad] g in
  isNumber (Vector3.y (plane g)) = true /\
  isNumber (Vector3.y (plane g')) = false.
Proof.
  intros g g'. split; [vm_compute; reflexivity|].
  assert (H3 : length (axes twoAxisPad) <= 3) by (cbn; lia).
  exact (proj2 (short_axes_give_nan_height [Some twoAxisPad] g 0 twoAxisPad
                  eq_refl eq_refl eq_refl H3)).
Defined.

Lemma nan_height_ends_judging_witness :
  let g := run [GamepadConnected twoAxisPad [Some twoAxisPad]] (initialGame samplePage) in
  let g' := run (repeat (AnimationFrame [Some twoAxisPad]) 400) g in
  score g' = 0 /\ crashed g' = false /\ checkedCount (rings g') = 4.
Proof.
  intros g g'.
  assert (Hy : isNumber (Vector3.y (plane g)) = false) by (vm_compute; reflexivity).
  assert (Hes : forallb (fun e => negb (isRestart e))
                  (repeat (AnimationFrame [Some twoAxisPad]) 400) = true)
    by (vm_compute; reflexivity).
  destruct (nan_height_ends_judging _ g Hes Hy) as (_ & Hs & Hc).
  split; [exact Hs|]. split; [exact Hc|]. vm_compute. reflexivity.
Defined.

(** ** What the page shows *)

Lemma checkRingsFrom_document (todo : list Ring) : forall (i : nat) (g : Game),
  let g' := snd (checkRingsFrom i todo g) in
  startMessage (document g') = startMessage (document g) /\
  (scoreText (document g') = Some (score g') \/
   (score g' = score g /\ scoreText (document g') = scoreText (document g))) /\
  ((crashMessage (document g') = DisplayBlock /\ crashed g' = true) \/
   (crashMessage (document g') = crashMessage (document g) /\ crashed g' = crashed g)).
Proof.
  induction todo as [|ring rest IH]; intros i g; [cbn; auto|].
  scan_step ring rest IH i g; cbn [snd] in *.
  - cbn in IH. destruct IH as (H1 & H2 & H3). repeat split; trivial.
    left. destruct H2 as [H2 | [H2 H2']]; [exact H2 | now rewrite H2', H2].
  - cbn. auto.
  - exact IH.
  - exact IH.
Qed.

Lemma animate_document (pads : Gamepads) (g : Game) :
  let g' := animate pads g in
  startMessage (document g') = startMessage (document g) /\
  (scoreText (document g') = Some (score g') \/
   (score g' = score g /\ scoreText (document g') = scoreText (document g))) /\
  ((crashMessage (document g') = DisplayBlock /\ crashed g' = true) \/
   (crashMessage (document g') = crashMessage (document g) /\ crashed g' = crashed g)).
Proof.
  cbn zeta. unfold animate. destruct (negb (gameStarted g) || crashed g); [auto|].
  fold (beforeCheck pads g).
  destruct (checkRings_fields (beforeCheck pads g))
    as (_ & _ & _ & _ & _ & _ & -> & -> & _ & ->).
  pose proof (checkRingsFrom_document (rings (beforeCheck pads g)) 0 (beforeCheck pads g)) as H.
  cbn zeta in H.
  destruct (beforeCheck_fields pads g) as (_ & _ & Bc & Bs & _ & Bd & _).
  now rewrite Bc, Bs, Bd in H.
Qed.

Lemma animate_display (page : Document) (pads : Gamepads) (g : Game) :
  display page g -> display page (animate pads g).
Proof.
  intros (Ds & Dc & Dn & Dst & Did).
  destruct (animate_document pads g) as (Hst & Hsc & Hcr).
  unfold display. rewrite animate_gameStarted, Hst.
  repeat match goal with |- _ /\ _ => split end; trivial.
  - destruct Hsc as [H | [H1 H2]]; [now left|]. rewrite H1, H2. exact Ds.
  - intros Hc. destruct Hcr as [[H _] | [H1 H2]]; [exact H|].
    rewrite H1. apply Dc. congruence.
  - intros Hc. destruct Hcr as [[_ H] | [H1 H2]]; [congruence|].
    rewrite H1. apply Dn. congruence.
Qed.

Lemma reachable_display (page : Document) (g : Game) :
  reachable page g -> display page g.
Proof.
  induction 1 as [|e g Hg IH].
  - unfold display. cbn. repeat split; auto; discriminate.
  - destruct (isRestart e) eqn:He.
    + destruct e as [pads | event pads | gamepad pads | ]; try discriminate.
      cbn [isRestart dispatch] in *. rewrite He. unfold display. cbn.
      repeat split; auto; discriminate.
    + destruct IH as (Ds & Dc & Dn & Dst & Did).
      destruct (dispatch_cases e g He)
        as [(_ & _ & Hst & Hcr & Hsc & _ & Hd & _) | [(pads & n & -> & Hn & Hd) | (_ & Hi & g1 & Hd & _ & _ & Hs1 & Hc1 & Hsc1 & _ & Hdoc1 & _)]].
      * unfold display. rewrite Hst, Hcr, Hsc, Hd. repeat split; assumption.
      * rewrite Hd. apply animate_display. unfold display. cbn. repeat split; assumption.
      * rewrite Hd. apply animate_display. apply stateOf_Idle in Hi. destruct Hi as [Hi1 Hi2].
        unfold display. rewrite Hs1, Hc1, Hsc1, Hdoc1. cbn.
        repeat split; trivial; try discriminate. intros _. now apply Dn.
Qed.

(** X13.  In every state the page can reach, the score element shows the current
    score; the one exception is that it still shows the text of the markup
    while the score is 0 and nothing has written to it. *)
Theorem score_text_is_current (page : Document) (g : Game) :
  reachable page g ->
  (scoreText (document g) = Some (score g) \/
   (score g = 0 /\ scoreText (document g) = scoreText page)) /\
  (0 < score g -> scoreText (document g) = Some (score g)).
Proof.
  intros Hg. destruct (reachable_display page g Hg) as (Ds & _).
  split; [exact Ds|]. intros Hpos. destruct Ds as [H | [H _]]; [exact H | lia].
Qed.

Lemma score_text_is_current_witness :
  scoreText (document (run (levelFlight 300) (initialGame samplePage))) = Some 3.
Proof.
  destruct (score_text_is_current samplePage (run (levelFlight 300) (initialGame samplePage))
              (run_reachable samplePage _ _ (reachable_init samplePage))) as (_ & H).
  rewrite H by (vm_compute; lia). vm_compute. reflexivity.
Defined.

(** X14.  On a page whose markup does not show the crash message and does not hide
    the start message, in every state that can be reached the crash message is
    shown exactly when the game is crashed and the start message is hidden
    exactly when the game has been started. *)
Theorem messages_follow_state (page : Document) (g : Game) :
  reachable page g ->
  crashMessage page <> DisplayBlock ->
  startMessage page <> DisplayNone ->
  (crashed g = true <-> crashMessage (document g) = DisplayBlock) /\
  (gameStarted g = true <-> startMessage (document g) = DisplayNone).
Proof.
  intros Hg Hc Hs. destruct (reachable_display page g Hg) as (_ & Dc & Dn & Dst & Did).
  split; split; trivial.
  - intros H. destruct (crashed g); [reflexivity|].
    destruct (Dn eq_refl) as [H' | H']; congruence.
  - intros H. destruct (gameStarted g); [reflexivity|].
    destruct (Did eq_refl) as [H' | H']; congruence.
Qed.

Lemma messages_follow_state_witness :
  let g := run diveIntoRim (initialGame samplePage) in
  crashed g = true /\ crashMessage (document g) = DisplayBlock /\
  startMessage (document g) = DisplayNone.
Proof.
  intros g.
  assert (Hc : crashMessage samplePage <> DisplayBlock) by discriminate.
  assert (Hs : startMessage samplePage <> DisplayNone) by discriminate.
  destruct (messages_follow_state samplePage g
              (run_reachable samplePage _ _ (reachable_init samplePage)) Hc Hs)
    as ((H1 & _) & (H2 & _)).
  assert (Hcr : crashed g = true) by (vm_compute; reflexivity).
  assert (Hst : gameStarted g = true) by (vm_compute; reflexivity).
  split; [exact Hcr|]. split; [exact (H1 Hcr) | exact (H2 Hst)].
Defined.

(** ** Which gamepad is read *)

Lemma dispatch_gamepadIndex (e : Event) (g : Game) :
  gamepadIndex (dispatch e g) = trackGamepad (gamepadIndex g) e.
Proof.
  destruct e as [pads | event pads | gamepad pads | ]; cbn [dispatch trackGamepad].
  - destruct (frameRequests g); [reflexivity|]. now rewrite animate_gamepadIndex.
  - destruct (isSpace event); [reflexivity|].
    destruct (negb (gameStarted g) && negb (crashed g)); [|reflexivity].
    unfold startGame. destruct (negb (gameStarted g)); [|reflexivity].
    now rewrite animate_gamepadIndex.
  - match goal with |- gamepadIndex (if ?c then _ else _) = _ => destruct c end;
      [|reflexivity].
    unfold startGame.
    match goal with |- gamepadIndex (if ?c then _ else _) = _ => destruct c end;
      [|reflexivity].
    now rewrite animate_gamepadIndex.
  - reflexivity.
Qed.

(** X15.  The gamepad the script reads is settled by the latest plug or unplug
    event alone: plugging one in selects it whatever the state of the game,
    unplugging any gamepad (the handler does not look at which) deselects the
    current one, and no frame, key, start, crash or restart changes it. *)
Theorem gamepad_follows_last_plug_event (es : list Event) (g : Game) :
  gamepadIndex (run es g) = fold_left trackGamepad es (gamepadIndex g).
Proof.
  revert g. induction es as [|e es IH]; intros g; [reflexivity|].
  cbn [run fold_left]. fold (run es (dispatch e g)).
  now rewrite IH, dispatch_gamepadIndex.
Qed.

(** ** After the last ring *)

(** X16.  Once every ring is checked, a tick of the running game still moves the
    plane and asks for the next frame, but changes neither the rings nor the
    score nor the state: the script has no end of the course, the plane just
    flies on. *)
Theorem all_checked_flies_on (pads : Gamepads) (g : Game) :
  stateOf g = Running ->
  Forall (fun r => checked r = true) (rings g) ->
  let g' := animate pads g in
  stateOf g' = Running /\ rings g' = rings g /\ score g' = score g /\
  document g' = document g /\
  Vector3.z (plane g') = (Vector3.z (plane g) - speed)%float /\
  frameRequests g' = S (frameRequests g).
Proof.
  intros Hs Hall g'. subst g'. apply stateOf_Running in Hs. destruct Hs as [Hs Hc].
  rewrite animate_started by assumption.
  destruct (beforeCheck_fields pads g)
    as (Br & Bs & Bc & Bsc & _ & Bd & _ & Bf & _ & _ & _ & Bz).
  rewrite checkRings_none_passed.
  - unfold stateOf. rewrite Bc, Bs, Hc, Hs, Br, Bsc, Bd, Bf, Bz. repeat split.
  - rewrite Br. intros r Hr. unfold passed.
    now rewrite (proj1 (Forall_forall _ _) Hall r Hr).
Qed.

Lemma all_checked_flies_on_witness :
  let g := run (levelFlight 1100) (initialGame samplePage) in
  let g' := animate [] g in
  checkedCount (rings g) = 10 /\ score g = 10 /\
  stateOf g' = Running /\ score g' = 10.
Proof.
  intros g g'.
  assert (Hs : stateOf g = Running) by (vm_compute; reflexivity).
  assert (Hall : Forall (fun r => checked r = true) (rings g)).
  { apply Forall_forall. intros r Hr. vm_compute in Hr.
    repeat (destruct Hr as [<- | Hr]; [reflexivity|]). destruct Hr. }
  destruct (all_checked_flies_on [] g Hs Hall) as (H1 & _ & H2 & _).
  split; [vm_compute; reflexivity|]. split; [vm_compute; reflexivity|].
  split; [exact H1|]. subst g'. rewrite H2. vm_compute. reflexivity.
Defined.
